(** * pysc2-rl-mini: the observation/action adapter of [rl/envs.py] and the
      one-hot helper of [rl/utils/np_ext.py]

    The Python code is embedded shallowly.  NumPy arrays are records that
    carry their shape next to nested lists of entries; Python exceptions are
    the [Raise] branch of a small error monad.  The pysc2 tables the code
    reads ([features.SCREEN_FEATURES], [features.MINIMAP_FEATURES],
    [actions.FUNCTIONS]) and the resolution of [sc2_config.yml] are not part
    of the repository and are taken as parameters (record [pysc2]).

    Numbers.  A [float32] array that the code only compares and shifts
    holds rationals ([Q]: every finite float is one, and [==] is decidable);
    an array that may hold the result of [np.log] holds reals ([R]), with
    [np.log] read as the real logarithm [ln], so rounding to 24 bits is not
    modelled. *)

From Stdlib Require Import ZArith QArith Qreals Qround Qabs Reals Lra Lia String.
From stdpp Require Import base list strings.

Open Scope nat_scope.

(** ** Python exceptions *)

Inductive exn : Type :=
| AssertionError
| ValueError
| IndexError
| TypeError.

Inductive result (A : Type) : Type :=
| Ok (a : A)
| Raise (e : exn).

Arguments Ok {A} a.
Arguments Raise {A} e.

#[global] Instance result_ret : MRet result := λ A a, Ok a.
#[global] Instance result_bind : MBind result :=
  λ A B f m, match m with Ok a => f a | Raise e => Raise e end.

(** [for x in l: s = body x s], stopping at the first exception. *)
Fixpoint for_each {A S : Type} (body : A → S → result S) (l : list A) (s : S)
  : result S :=
  match l with
  | [] => Ok s
  | x :: l' => s' ← body x s; for_each body l' s'
  end.

(** Python's [enumerate]. *)
Definition enumerate {A : Type} (l : list A) : list (nat * A) :=
  zip (seq 0 (length l)) l.

(** [assert c]. *)
Definition assert (c : bool) : result unit :=
  if c then Ok tt else Raise AssertionError.

(** ** NumPy *)

Module Np.

(** A three-dimensional array: [shape] is [(shape0, shape1, shape2)]. *)
Record ndarray3 (A : Type) : Type := Nd3 {
  shape0 : nat;
  shape1 : nat;
  shape2 : nat;
  items : list (list (list A))
}.

Arguments Nd3 {A} _ _ _ _.
Arguments shape0 {A} _.
Arguments shape1 {A} _.
Arguments shape2 {A} _.
Arguments items {A} _.

(** The entries agree with the shape (every NumPy array does). *)
Definition wf3 {A : Type} (a : ndarray3 A) : Prop :=
  length (items a) = shape0 a ∧
  Forall (λ plane, length plane = shape1 a ∧
                   Forall (λ row : list A, length row = shape2 a) plane)
         (items a).

(** [a[c, y, x]] read as a partial function. *)
Definition pixel {A : Type} (a : ndarray3 A) (c y x : nat) : option A :=
  plane ← items a !! c; row ← plane !! y; row !! x.

(** A four-dimensional array. *)
Record ndarray4 (A : Type) : Type := Nd4 {
  shape4 : nat * nat * nat * nat;
  items4 : list (list (list (list A)))
}.

Arguments Nd4 {A} _ _.
Arguments shape4 {A} _.
Arguments items4 {A} _.

(** [np.zeros((c, h, w))] *)
Definition zeros3 {A : Type} (zero : A) (c h w : nat) : ndarray3 A :=
  Nd3 c h w (replicate c (replicate h (replicate w zero))).

(** Elementwise application of a unary function. *)
Definition map3 {A B : Type} (f : A → B) (a : ndarray3 A) : ndarray3 B :=
  Nd3 (shape0 a) (shape1 a) (shape2 a)
      (fmap (M:=list) (fmap (M:=list) (fmap (M:=list) f)) (items a)).

(** [a[i:i + 1]]: slicing never raises, it clips. *)
Definition slice1 {A : Type} (a : ndarray3 A) (i : nat) : ndarray3 A :=
  Nd3 (Nat.min 1 (shape0 a - i)) (shape1 a) (shape2 a)
      (take 1 (drop i (items a))).

(** [a[i]] for a non-negative index. *)
Definition getitem {A : Type} (a : ndarray3 A) (i : nat)
  : result (list (list A)) :=
  match items a !! i with
  | Some plane => Ok plane
  | None => Raise IndexError
  end.

(** [(plane == j)] for a Python integer [j]. *)
Definition eq_scalar (plane : list (list Q)) (j : nat) : list (list bool) :=
  fmap (M:=list)
    (fmap (M:=list) (λ v, Qeq_bool v (inject_Z (Z.of_nat j)))) plane.

Fixpoint nonzero_row (y x : nat) (row : list bool) : list (nat * nat) :=
  match row with
  | [] => []
  | b :: row' => (if b then [(y, x)] else []) ++ nonzero_row y (S x) row'
  end.

Fixpoint nonzero_from (y : nat) (mask : list (list bool)) : list (nat * nat) :=
  match mask with
  | [] => []
  | row :: mask' => nonzero_row y 0 row ++ nonzero_from (S y) mask'
  end.

(** [mask.nonzero()] of a two-dimensional mask: the row indices and the
    column indices of the true entries, in row-major order. *)
Definition nonzero (mask : list (list bool)) : list nat * list nat :=
  let coords := nonzero_from 0 mask in (coords.*1, coords.*2).

(** One store [its[j][y][x] = v]. *)
Definition store3 {A : Type} (v : A) (j : nat) (its : list (list (list A)))
    (yx : nat * nat) : list (list (list A)) :=
  alter (alter (<[yx.2 := v]>) yx.1) j its.

(** [a[j, indy, indx] = v] with an integer [j] and index arrays [indy],
    [indx]: the arrays must have one shape and every index must be in
    bounds, else IndexError; [a] is updated in place. *)
Definition setitem3 {A : Type} (a : ndarray3 A) (j : nat)
    (indy indx : list nat) (v : A) : result (ndarray3 A) :=
  if negb (length indy =? length indx) then Raise IndexError
  else if negb (j <? shape0 a) then Raise IndexError
  else if negb (forallb (λ y, y <? shape1 a) indy) then Raise IndexError
  else if negb (forallb (λ x, x <? shape2 a) indx) then Raise IndexError
  else Ok (Nd3 (shape0 a) (shape1 a) (shape2 a)
               (foldl (store3 v j) (items a) (zip indy indx))).

(** [np.concatenate(arrays, axis=0)]: ValueError on an empty sequence and
    when the arrays disagree on the other two dimensions. *)
Definition concatenate {A : Type} (arrays : list (ndarray3 A))
  : result (ndarray3 A) :=
  match arrays with
  | [] => Raise ValueError
  | a :: _ =>
      if forallb (λ b, (shape1 b =? shape1 a) && (shape2 b =? shape2 a))
                 arrays
      then Ok (Nd3 (sum_list (shape0 <$> arrays)) (shape1 a) (shape2 a)
                   (concat (items <$> arrays)))
      else Raise ValueError
  end.

(** [np.expand_dims(a, 0)] *)
Definition expand_dims0 {A : Type} (a : ndarray3 A) : ndarray4 A :=
  Nd4 (1, shape0 a, shape1 a, shape2 a) [items a].

(** [np.log(a + 1.)] on a float array: the real logarithm (meaningful for
    entries above [-1], where [np.log] is finite). *)
Definition log_plus_one (a : ndarray3 Q) : ndarray3 R :=
  map3 (λ v, ln (Q2R v + 1)%R) a.

End Np.

(** ** [rl/utils/np_ext.py] *)

Module NpExt.

(** An array of any rank: a scalar entry or a sequence of sub-arrays. *)
#[warnings="-register-all"]
Inductive ndarray (A : Type) : Type :=
| Item (a : A)
| Axis (l : list (ndarray A)).

Arguments Item {A} a.
Arguments Axis {A} l.

(** The two constants a [dtype] contributes to [np.eye]. *)
Record dtype (A : Type) : Type := Dtype { zero : A; one : A }.

Arguments zero {A} _.
Arguments one {A} _.

(** [np.eye(depth, dtype=dtype)]: ValueError for a negative dimension. *)
Definition eye {A : Type} (depth : Z) (dt : dtype A) : result (list (list A)) :=
  if (depth <? 0)%Z then Raise ValueError
  else
    let n := Z.to_nat depth in
    Ok ((λ r, (λ c, if r =? c then one dt else zero dt) <$> seq 0 n)
          <$> seq 0 n).

(** [table[k]] for one integer [k]: a negative [k] counts from the end,
    IndexError outside [-len, len). *)
Definition take_row {A : Type} (table : list (list A)) (k : Z)
  : result (list A) :=
  let n := Z.of_nat (length table) in
  let k' := if (k <? 0)%Z then (k + n)%Z else k in
  if (0 <=? k')%Z && (k' <? n)%Z then
    match table !! Z.to_nat k' with
    | Some row => Ok row
    | None => Raise IndexError
    end
  else Raise IndexError.

(** [table[indices]] for an integer array [indices]: every entry is
    replaced by the row it selects, which adds one trailing axis. *)
Fixpoint getitem_array {A : Type} (table : list (list A)) (indices : ndarray Z)
  : result (ndarray A) :=
  match indices with
  | Item k => row ← take_row table k; Ok (Axis (Item <$> row))
  | Axis l => l' ← mapM (getitem_array table) l; Ok (Axis l')
  end.

(** Conversion of one float to [int]: truncation toward zero. *)
Definition to_int (q : Q) : Z :=
  if (Qnum q <? 0)%Z then Qceiling q else Qfloor q.

(** [indices.astype(int)], for entries whose integer part is an [int64]
    value. *)
Fixpoint astype_int (indices : ndarray Q) : ndarray Z :=
  match indices with
  | Item q => Item (to_int q)
  | Axis l => Axis (astype_int <$> l)
  end.

Definition one_hot {A : Type} (indices : ndarray Q) (depth : Z) (dt : dtype A)
  : result (ndarray A) :=
  table ← eye depth dt;
  getitem_array table (astype_int indices).

End NpExt.

(** ** The parts of pysc2 that [rl/envs.py] reads *)

Module Pysc2.

Inductive FeatureType : Type := SCALAR | CATEGORICAL.

(** An entry of [features.SCREEN_FEATURES] or [features.MINIMAP_FEATURES]
    (fields [type] and [scale] of pysc2's [Feature]). *)
Record Feature : Type := { type : FeatureType; scale : nat }.

(** pysc2's [ArgumentType], of which only [name] is read. *)
Record ArgumentType : Type := { name : string }.

(** An entry of [actions.FUNCTIONS], of which only [args] is read. *)
Record Function : Type := { args : list ArgumentType }.

(** [actions.FunctionCall(function, arguments)] *)
Record FunctionCall : Type :=
  { function : Z; arguments : list (list Z) }.

(** The tables of the installed pysc2 and the ['resl'] entry of each
    profile of [configs/sc2_config.yml]. *)
Record pysc2 : Type := {
  SCREEN_FEATURES : list Feature;
  MINIMAP_FEATURES : list Feature;
  FUNCTIONS : list Function;
  resl : string → Z
}.

End Pysc2.

(** ** [rl/envs.py] *)

Module Envs.
Import Np Pysc2.

(** [seq[i]] on a Python sequence: a negative index counts from the end,
    IndexError outside [-len, len). *)
Definition py_getitem {A : Type} (l : list A) (i : Z) : result A :=
  let n := Z.of_nat (length l) in
  let k := if (i <? 0)%Z then (i + n)%Z else i in
  if (0 <=? k)%Z && (k <? n)%Z then
    match l !! Z.to_nat k with
    | Some x => Ok x
    | None => Raise IndexError
    end
  else Raise IndexError.

(** [l[i] = x] on a Python list and a non-negative index. *)
Definition py_setitem {A : Type} (l : list A) (i : nat) (x : A)
  : result (list A) :=
  if i <? length l then Ok (<[i := x]> l) else Raise IndexError.

(** The objects that reach a call expression, and the call operator: a
    [list] object has no [__call__], so calling it raises TypeError. *)
Inductive pyobj : Type :=
| PyList (l : list bool)
| PyCallable (f : Z → result bool).

Definition py_call (o : pyobj) (arg : Z) : result bool :=
  match o with
  | PyCallable f => f arg
  | PyList _ => Raise TypeError
  end.

(** [a % b] and [a // b] on NumPy integers: floored, and 0 (with a
    warning) for a zero divisor. *)
Definition np_mod (a b : Z) : Z := if (b =? 0)%Z then 0%Z else (a mod b)%Z.
Definition np_floordiv (a b : Z) : Z := if (b =? 0)%Z then 0%Z else (a / b)%Z.

(** [a[idx] = v] on a one-dimensional array with an integer index array:
    negative indices count from the end, IndexError out of bounds.  The
    entries of [idx] are the [int64] values of the index array. *)
Definition setitem1 {A : Type} (a : list A) (idx : list Z) (v : A)
  : result (list A) :=
  let n := Z.of_nat (length a) in
  if forallb (λ i, (- n <=? i)%Z && (i <? n)%Z) idx then
    Ok (foldl (λ acc i, <[Z.to_nat (if (i <? 0)%Z then i + n else i)%Z := v]> acc)
              a idx)
  else Raise IndexError.

(** [name in ('screen', 'minimap', 'screen2')] *)
Definition is_spatial_name (s : string) : bool :=
  bool_decide (s ∈ ["screen"; "minimap"; "screen2"]%string).

(** The attributes of a handler that its methods read ([dtype] is fixed to
    [np.float32]; the three feature indices are never read). *)
Record GameInterfaceHandler : Type := {
  num_action : nat;
  screen_resolution : Z;
  minimap_resolution : Z;
  non_spatial_actions : list bool
}.

(** [Timestep.observation], with the three keys the handler reads. *)
Record observation : Type := {
  obs_screen : ndarray3 Q;
  obs_minimap : ndarray3 Q;
  obs_available_actions : list Z
}.

(** The channel count loop of [screen_channels] and [minimap_channels]. *)
Definition count_channels (catalog : list Feature) : nat :=
  foldl (λ channels feature,
           match type feature with
           | SCALAR => channels + 1
           | CATEGORICAL => channels + scale feature
           end) 0 catalog.

Definition screen_channels (lib : pysc2) : nat :=
  count_channels (SCREEN_FEATURES lib).

Definition minimap_channels (lib : pysc2) : nat :=
  count_channels (MINIMAP_FEATURES lib).

(** The [else] branch of the layer loop: a zero block of [scale] channels
    in which channel [j] is set to 1 where layer [i] equals [j]. *)
Definition expand_layer (screen : ndarray3 Q) (i : nat) (feature : Feature)
  : result (ndarray3 R) :=
  for_each (λ j layer,
              plane ← getitem screen i;
              let '(indy, indx) := nonzero (eq_scalar plane j) in
              setitem3 layer j indy indx 1%R)
           (seq 0 (scale feature))
           (zeros3 0%R (scale feature) (shape1 screen) (shape2 screen)).

(** The body of [_preprocess_screen] and of [_preprocess_minimap], which
    differ in the catalog only.  The argument is the array after
    [np.array(screen, dtype=self.dtype)]; the conversion itself is
    [Cast.np_array_float32]. *)
Definition preprocess (catalog : list Feature) (screen : ndarray3 Q)
  : result (ndarray3 R) :=
  _ ← assert (shape0 screen =? length catalog);
  layers ← for_each
    (λ '(i, feature) layers,
       match type feature with
       | SCALAR => Ok (layers ++ [log_plus_one (slice1 screen i)])
       | CATEGORICAL =>
           layer ← expand_layer screen i feature;
           Ok (layers ++ [layer])
       end)
    (enumerate catalog) [];
  concatenate layers.

Definition _preprocess_screen (lib : pysc2) (screen : ndarray3 Q)
  : result (ndarray3 R) :=
  preprocess (SCREEN_FEATURES lib) screen.

Definition get_screen (lib : pysc2) (obs : observation)
  : result (ndarray4 R) :=
  screen ← _preprocess_screen lib (obs_screen obs);
  Ok (expand_dims0 screen).

Definition _preprocess_minimap (lib : pysc2) (minimap : ndarray3 Q)
  : result (ndarray3 R) :=
  preprocess (MINIMAP_FEATURES lib) minimap.

Definition get_minimap (lib : pysc2) (obs : observation)
  : result (ndarray4 R) :=
  minimap ← _preprocess_minimap lib (obs_minimap obs);
  Ok (expand_dims0 minimap).

Definition _preprocess_available_actions (self : GameInterfaceHandler)
    (available_actions : list Z) : result (list Q) :=
  let a_actions := replicate (num_action self) 0%Q in
  setitem1 a_actions available_actions 1%Q.

Definition get_available_actions (self : GameInterfaceHandler)
    (obs : observation) : result (list Q) :=
  _preprocess_available_actions self (obs_available_actions obs).

Definition get_info (self : GameInterfaceHandler) (obs : observation)
  : result (list Q) :=
  get_available_actions self obs.

(** The local [target_point] of [postprocess_action]: [(x, y)]. *)
Definition target_point (self : GameInterfaceHandler) (target : Z) : list Z :=
  [np_mod target (screen_resolution self);
   np_floordiv target (screen_resolution self)].

Definition postprocess_action (lib : pysc2) (self : GameInterfaceHandler)
    (non_spatial_action spatial_action : list (list Z))
  : result FunctionCall :=
  act_id ← (row ← py_getitem non_spatial_action 0; py_getitem row 0);
  target ← (row ← py_getitem spatial_action 0; py_getitem row 0);
  func ← py_getitem (FUNCTIONS lib) act_id;
  let act_args :=
    foldl (λ act_args arg,
             if is_spatial_name (name arg)
             then act_args ++ [target_point self target]
             else act_args ++ [[0%Z]])
          [] (args func) in
  Ok {| function := act_id; arguments := act_args |}.

(** The inner loop of [_get_nonspatial_actions]: the first spatial
    argument clears the flag and leaves the loop. *)
Fixpoint scan_args (func_id : nat) (l : list ArgumentType)
    (non_spatial_actions : list bool) : result (list bool) :=
  match l with
  | [] => Ok non_spatial_actions
  | arg :: l' =>
      if is_spatial_name (name arg)
      then py_setitem non_spatial_actions func_id false
      else scan_args func_id l' non_spatial_actions
  end.

Definition _get_nonspatial_actions (lib : pysc2) (num_action : nat)
  : result (list bool) :=
  for_each (λ '(func_id, func) non_spatial_actions,
              scan_args func_id (args func) non_spatial_actions)
           (enumerate (FUNCTIONS lib))
           (replicate num_action true).

(** [GameInterfaceHandler(mode)] *)
Definition __init__ (lib : pysc2) (mode : string)
  : result GameInterfaceHandler :=
  _ ← assert (bool_decide (mode ∈ ["dev"; "test"]%string));
  let num_action := length (FUNCTIONS lib) in
  non_spatial_actions ← _get_nonspatial_actions lib num_action;
  Ok {| num_action := num_action;
        screen_resolution := resl lib mode;
        minimap_resolution := resl lib mode;
        non_spatial_actions := non_spatial_actions |}.

Definition is_nonspatial_action (self : GameInterfaceHandler)
    (action_id : Z) : result bool :=
  py_call (PyList (non_spatial_actions self)) action_id.

End Envs.

(** ** Vocabulary of the statements *)

Module Vocabulary.
Import Np Pysc2 Envs.

(** A slot is spatial when its name is one of the three spatial names. *)
Definition is_spatial (arg : ArgumentType) : bool :=
  is_spatial_name (name arg).

(** The value [postprocess_action] supplies at one argument slot. *)
Definition slot_value (self : GameInterfaceHandler) (target : Z)
    (arg : ArgumentType) : list Z :=
  if is_spatial arg then target_point self target else [0%Z].

(** An action is non-spatial when none of its slots is spatial. *)
Definition no_spatial_slot (func : Function) : bool :=
  negb (existsb is_spatial (args func)).

(** The array is rectangular with the dimensions [s]. *)
Fixpoint has_shape {A : Type} (a : NpExt.ndarray A) (s : list nat) : bool :=
  match a, s with
  | NpExt.Item _, [] => true
  | NpExt.Axis l, n :: s' =>
      (length l =? n) && forallb (λ b, has_shape b s') l
  | _, _ => false
  end.

(** The entry at a multi-index. *)
Fixpoint nd_get {A : Type} (a : NpExt.ndarray A) (path : list nat)
  : option A :=
  match path, a with
  | [], NpExt.Item x => Some x
  | i :: path', NpExt.Axis l => b ← l !! i; nd_get b path'
  | _, _ => None
  end.

(** Every entry passes the test [P]. *)
Fixpoint nd_all {A : Type} (P : A → bool) (a : NpExt.ndarray A) : bool :=
  match a with
  | NpExt.Item x => P x
  | NpExt.Axis l => forallb (nd_all P) l
  end.

(** The float [q] is an integer in [0, depth). *)
Definition is_index (depth : Z) (q : Q) : bool :=
  Qeq_bool q (inject_Z (Qfloor q))
  && (0 <=? Qfloor q)%Z && (Qfloor q <? depth)%Z.

(** The indicator map of category [j] on a raw plane. *)
Definition indicator (j : nat) (plane : list (list Q)) : list (list R) :=
  fmap (M:=list)
    (fmap (M:=list)
       (λ v, if Qeq_bool v (inject_Z (Z.of_nat j)) then 1%R else 0%R))
    plane.

(** The plane [np.log(plane + 1.)]. *)
Definition log_plane (plane : list (list Q)) : list (list R) :=
  fmap (M:=list) (fmap (M:=list) (λ v, ln (Q2R v + 1)%R)) plane.

(** The number of output channels of one catalog entry. *)
Definition channels_of (feature : Feature) : nat :=
  match type feature with
  | SCALAR => 1
  | CATEGORICAL => scale feature
  end.

(** The output channels computed from one raw layer. *)
Definition block (feature : Feature) (plane : list (list Q))
  : list (list (list R)) :=
  match type feature with
  | SCALAR => [log_plane plane]
  | CATEGORICAL => (λ j, indicator j plane) <$> seq 0 (scale feature)
  end.

(** The first output channel of layer [i]. *)
Definition channel_offset (catalog : list Feature) (i : nat) : nat :=
  sum_list (channels_of <$> take i catalog).

(** A plane in which the entries at the coordinates [coords] are
    overwritten with [v]. *)
Definition paint {A : Type} (v : A) (coords : list (nat * nat))
    (plane : list (list A)) : list (list A) :=
  imap (λ y row,
          imap (λ x old, if bool_decide ((y, x) ∈ coords) then v else old)
               row)
       plane.

(** The array appended to [layers] for one catalog entry. *)
Definition layer_array (h w : nat) (feature : Feature)
    (plane : list (list Q)) : ndarray3 R :=
  Nd3 (channels_of feature) h w (block feature plane).

(** The encoded map: the blocks of all layers, in catalog order. *)
Definition encoded (catalog : list Feature) (screen : ndarray3 Q)
  : ndarray3 R :=
  Nd3 (sum_list (channels_of <$> catalog)) (shape1 screen) (shape2 screen)
      (concat (zip_with block catalog (items screen))).

(** The values of the [C] channels starting at [off], at one pixel. *)
Definition column (a : ndarray3 R) (off C y x : nat) : list R :=
  omap (λ j, pixel a (off + j) y x) (seq 0 C).

(** The sum of a list of reals. *)
Definition Rsum (l : list R) : R := foldr Rplus 0%R l.

(** [np.argmax] of a vector: the first index of a largest entry. *)
Fixpoint argmax_from (best_i : nat) (best : R) (i : nat) (l : list R) : nat :=
  match l with
  | [] => best_i
  | x :: l' =>
      if Rlt_dec best x then argmax_from i x (S i) l'
      else argmax_from best_i best (S i) l'
  end.

Definition argmax (l : list R) : nat :=
  match l with
  | [] => 0
  | x :: l' => argmax_from 0 x 1 l'
  end.

(** The entries of a four-dimensional array agree with its shape. *)
Definition wf4 {A : Type} (t : ndarray4 A) : Prop :=
  let '(n0, n1, n2, n3) := shape4 t in
  length (items4 t) = n0 ∧
  Forall (λ its, wf3 (Nd3 n1 n2 n3 its)) (items4 t).

(** The two map types, which share the transformation. *)
Inductive map_type : Type := Screen | Minimap.

Definition catalog_of (lib : pysc2) (m : map_type) : list Feature :=
  match m with
  | Screen => SCREEN_FEATURES lib
  | Minimap => MINIMAP_FEATURES lib
  end.

Definition preprocess_map (lib : pysc2) (m : map_type)
  : ndarray3 Q → result (ndarray3 R) :=
  match m with
  | Screen => _preprocess_screen lib
  | Minimap => _preprocess_minimap lib
  end.

Definition map_channels (lib : pysc2) (m : map_type) : nat :=
  match m with
  | Screen => screen_channels lib
  | Minimap => minimap_channels lib
  end.

Definition raw_map (obs : observation) (m : map_type) : ndarray3 Q :=
  match m with
  | Screen => obs_screen obs
  | Minimap => obs_minimap obs
  end.

Definition get_map (lib : pysc2) (m : map_type) (obs : observation)
  : result (ndarray4 R) :=
  match m with
  | Screen => get_screen lib obs
  | Minimap => get_minimap lib obs
  end.

End Vocabulary.

(** ** A small instance *)

Module Demo.
Import Np Pysc2 Envs NpExt.

(** Two layers: a scalar one and a categorical one with three classes. *)
Definition catalog : list Feature :=
  [ {| type := SCALAR; scale := 256 |};
    {| type := CATEGORICAL; scale := 3 |} ].

(** [no_op()], [Move_screen(queued, screen)] and
    [select_rect(select_add, screen, screen2)]. *)
Definition functions : list Function :=
  [ {| args := [] |};
    {| args := [ {| name := "queued" |}; {| name := "screen" |} ] |};
    {| args := [ {| name := "select_add" |}; {| name := "screen" |};
                 {| name := "screen2" |} ] |} ].

Definition lib : pysc2 :=
  {| SCREEN_FEATURES := catalog;
     MINIMAP_FEATURES := catalog;
     FUNCTIONS := functions;
     resl := λ _, 8%Z |}.

(** A map of shape [(2, 1, 2)]; the second layer holds the class 2 and
    the value 5, which is no class. *)
Definition raw : ndarray3 Q :=
  Nd3 2 1 2 [ [[0%Q; 3%Q]]; [[2%Q; 5%Q]] ].

Definition obs : observation :=
  {| obs_screen := raw;
     obs_minimap := raw;
     obs_available_actions := [0%Z; 2%Z; 2%Z] |}.

Definition handler : GameInterfaceHandler :=
  {| num_action := 3;
     screen_resolution := 8;
     minimap_resolution := 8;
     non_spatial_actions := [true; false; false] |}.

Definition select_rect : Function :=
  {| args := [ {| name := "select_add" |}; {| name := "screen" |};
               {| name := "screen2" |} ] |}.

Definition float64 : dtype Q := Dtype Q 0%Q 1%Q.

Definition indices : ndarray Q :=
  Axis [Axis [Item 0%Q; Item 2%Q]; Axis [Item 1%Q; Item 1%Q]].

End Demo.

(** ** Further vocabulary *)

Module Terms.
Import Np Pysc2 Envs NpExt Vocabulary.

(** The position a Python index selects in a sequence of length [n]. *)
Definition wrap (n k : Z) : Z := if (k <? 0)%Z then (k + n)%Z else k.

(** The index is one Python accepts for a sequence of length [n]. *)
Definition in_bounds (n k : Z) : bool := (- n <=? k)%Z && (k <? n)%Z.

(** The row-major flat index of the coordinate [(x, y)]. *)
Definition flat_index (R x y : Z) : Z := (y * R + x)%Z.

(** The value of output channel [j] of a layer at a pixel of raw value
    [v]. *)
Definition layer_value (feature : Feature) (j : nat) (v : Q) : R :=
  match type feature with
  | SCALAR => ln (Q2R v + 1)%R
  | CATEGORICAL => if Qeq_bool v (inject_Z (Z.of_nat j)) then 1%R else 0%R
  end.

(** A raw plane as an array of rank two. *)
Definition as_ndarray (plane : list (list Q)) : ndarray Q :=
  Axis ((λ row, Axis (Item <$> row)) <$> plane).

(** The constants of a float [dtype]. *)
Definition float_dtype : dtype R := Dtype R 0%R 1%R.

(** The handler [__init__] builds for a valid mode. *)
Definition built_handler (lib : pysc2) (mode : string)
  : GameInterfaceHandler :=
  {| num_action := length (FUNCTIONS lib);
     screen_resolution := resl lib mode;
     minimap_resolution := resl lib mode;
     non_spatial_actions := no_spatial_slot <$> FUNCTIONS lib |}.

End Terms.

(** ** The conversion to [float32] and to [int] *)

Module Cast.
Import Np Pysc2 Envs NpExt.

(** Rounding to the nearest integer, ties to the even one. *)
Definition round_half_even (r : Q) : Z :=
  let f := Qfloor r in
  match Qcompare (r - inject_Z f) (1 # 2) with
  | Lt => f
  | Gt => (f + 1)%Z
  | Eq => if Z.even f then f else (f + 1)%Z
  end.

(** The exponent [e] with [2^e <= a < 2^(e + 1)], for [a > 0]. *)
Definition binade (a : Q) : Z :=
  let e0 := (Z.log2 (Qnum a) - Z.log2 (Z.pos (Qden a)))%Z in
  if Qle_bool (Qpower 2 e0) a then e0 else (e0 - 1)%Z.

(** The [float32] nearest to [q] (IEEE 754 binary32: 24 significant bits,
    least exponent -126 with subnormals, round to nearest, ties to even);
    [None] where the conversion overflows to an infinity, which the
    rationals do not have. *)
Definition float32 (q : Q) : option Q :=
  if Qeq_bool q 0 then Some 0%Q
  else
    let a := Qabs q in
    let quantum := Qpower 2 (Z.max (binade a) (-126) - 23) in
    let magnitude := (inject_Z (round_half_even (a / quantum)) * quantum)%Q in
    if Qle_bool (Qpower 2 128) magnitude then None
    else Some (Qred (if Qle_bool 0 q then magnitude else - magnitude)).

(** [np.array(screen, dtype=np.float32)], the first statement of
    [_preprocess_screen] and [_preprocess_minimap], on a map whose entries
    stay finite. *)
Definition np_array_float32 (a : ndarray3 Q) : option (ndarray3 Q) :=
  its ← mapM (M:=option) (mapM (M:=option) (mapM (M:=option) float32))
             (items a);
  Some (Nd3 (shape0 a) (shape1 a) (shape2 a) its).

(** The integer part of a rational, rounding toward zero. *)
Definition truncate (q : Q) : Z := Z.quot (Qnum q) (Z.pos (Qden q)).

(** The integer is a value of NumPy's index type [int64]. *)
Definition is_int64 (k : Z) : bool :=
  (- 2 ^ 63 <=? k)%Z && (k <? 2 ^ 63)%Z.

End Cast.

(** ** More of the small instance *)

Module Sample.
Import Np Pysc2 Envs NpExt.

(** A second map of shape [(2, 1, 2)] whose categorical layer holds
    classes only; it shares the pixel [(1, 0, 0)] with [Demo.raw]. *)
Definition raw : ndarray3 Q :=
  Nd3 2 1 2 [ [[7%Q; 3%Q]]; [[2%Q; 1%Q]] ].

(** The indices 1.5, -1 and -0.5. *)
Definition loose_indices : ndarray Q :=
  Axis [Item (3 # 2)%Q; Item (-1)%Q; Item (-1 # 2)%Q].

(** [no_op()], [select_army(select_add)], [Attack_minimap(queued, minimap)]
    and [select_rect(select_add, screen, screen2)]. *)
Definition functions : list Function :=
  [ {| args := [] |};
    {| args := [ {| name := "select_add" |} ] |};
    {| args := [ {| name := "queued" |}; {| name := "minimap" |} ] |};
    {| args := [ {| name := "select_add" |}; {| name := "screen" |};
                 {| name := "screen2" |} ] |} ].

Definition lib : pysc2 :=
  {| SCREEN_FEATURES := Demo.catalog;
     MINIMAP_FEATURES := Demo.catalog;
     FUNCTIONS := functions;
     resl := λ _, 8%Z |}.

Definition handler : GameInterfaceHandler :=
  {| num_action := 4;
     screen_resolution := 8;
     minimap_resolution := 8;
     non_spatial_actions := [true; true; false; false] |}.

Definition select_army : Function :=
  {| args := [ {| name := "select_add" |} ] |}.

Definition attack_minimap : Function :=
  {| args := [ {| name := "queued" |}; {| name := "minimap" |} ] |}.

(** A map as the engine may hand it over, before the conversion: the
    categorical layer holds 2.00000001 and 0.5. *)
Definition unrounded : ndarray3 Q :=
  Nd3 2 1 2 [ [[0%Q; 3%Q]];
              [[(200000001 # 100000000)%Q; (1 # 2)%Q]] ].

(** The same map after the conversion to [float32]. *)
Definition rounded : ndarray3 Q :=
  Nd3 2 1 2 [ [[0%Q; 3%Q]]; [[2%Q; (1 # 2)%Q]] ].

End Sample.

(** * Properties *)

Import Np Pysc2 Envs NpExt Vocabulary.

(** ** Action decoding *)

Section ActionDecoding.
Variable lib : pysc2.
Variable self : GameInterfaceHandler.

Lemma py_getitem_singleton {A : Type} (x : A) : py_getitem [x] 0 = Ok x.
Proof. reflexivity. Qed.

(** The append loop over the argument slots is a [map]. *)
Lemma act_args_loop target (slots : list ArgumentType) (acc : list (list Z)) :
  foldl (λ act_args arg,
           if is_spatial_name (name arg)
           then act_args ++ [target_point self target]
           else act_args ++ [[0%Z]]) acc slots
  = acc ++ (slot_value self target <$> slots).
Proof.
  revert acc. induction slots as [|arg slots IH]; intros acc; simpl.
  - by rewrite app_nil_r.
  - rewrite IH. unfold slot_value at 2, is_spatial.
    destruct (is_spatial_name (name arg)); by rewrite <- app_assoc.
Qed.

Lemma postprocess_action_eq act_id target func :
  py_getitem (FUNCTIONS lib) act_id = Ok func →
  postprocess_action lib self [[act_id]] [[target]]
  = Ok {| function := act_id;
          arguments := slot_value self target <$> args func |}.
Proof.
  intros Hf. unfold postprocess_action.
  rewrite !py_getitem_singleton. simpl. rewrite Hf. simpl.
  by rewrite act_args_loop.
Qed.

End ActionDecoding.

(** C4: a flat index [f] with [0 <= f < R * R] is decoded to
    [(f mod R, f div R)], both coordinates lie in [0, R), every spatial slot
    of the returned call holds that pair, and the indices [0], [R] and
    [R * R - 1] decode to [(0, 0)], [(0, 1)] and [(R - 1, R - 1)]. *)
Theorem postprocess_action_decodes_flat_index
    (lib : pysc2) (self : GameInterfaceHandler) (act_id f R : Z)
    (func : Function) :
  screen_resolution self = R →
  (0 < R)%Z →
  (0 ≤ f < R * R)%Z →
  py_getitem (FUNCTIONS lib) act_id = Ok func →
  target_point self f = [(f mod R)%Z; (f / R)%Z] ∧
  (0 ≤ f mod R < R)%Z ∧ (0 ≤ f / R < R)%Z ∧
  (∃ call, postprocess_action lib self [[act_id]] [[f]] = Ok call ∧
     ∀ k arg, args func !! k = Some arg → is_spatial arg = true →
       arguments call !! k = Some [(f mod R)%Z; (f / R)%Z]) ∧
  target_point self 0 = [0%Z; 0%Z] ∧
  target_point self R = [0%Z; 1%Z] ∧
  target_point self (R * R - 1) = [(R - 1)%Z; (R - 1)%Z].
Proof.
  intros HR Hpos Hf Hfunc.
  assert (Hne : (R =? 0)%Z = false) by (apply Z.eqb_neq; lia).
  assert (Hpt : ∀ t, target_point self t = [(t mod R)%Z; (t / R)%Z]).
  { intros t. unfold target_point, np_mod, np_floordiv. by rewrite HR, Hne. }
  split; [apply Hpt|].
  split; [apply Z.mod_pos_bound; lia|].
  split; [split; [apply Z.div_pos; lia | apply Z.div_lt_upper_bound; lia]|].
  split.
  - eexists. split; [by apply postprocess_action_eq|].
    intros k arg Hk Hsp. simpl.
    rewrite list_lookup_fmap, Hk. simpl.
    unfold slot_value. by rewrite Hsp, Hpt.
  - rewrite !Hpt. split; [|split].
    + by rewrite Z.mod_0_l, Z.div_0_l by lia.
    + by rewrite Z.mod_same, Z.div_same by lia.
    + replace (R * R - 1)%Z with ((R - 1) + (R - 1) * R)%Z by lia.
      rewrite Z.mod_add, Z.div_add by lia.
      rewrite Z.mod_small, Z.div_small by lia.
      do 2 f_equal; lia.
Qed.

Lemma is_spatial_name_iff (s : string) :
  is_spatial_name s = true
  ↔ s = "screen" ∨ s = "minimap" ∨ s = "screen2".
Proof.
  unfold is_spatial_name. rewrite bool_decide_eq_true.
  rewrite !elem_of_cons, elem_of_nil. tauto.
Qed.

(** C6: the argument list follows the declared slots in order, with the
    decoded pair at every slot named ['screen'], ['minimap'] or
    ['screen2'] and [[0]] at every slot of another name; an action with
    three slots of which two carry one of these names gets three
    arguments, the same pair twice and [[0]] once. *)
Theorem postprocess_action_assembles_arguments
    (lib : pysc2) (self : GameInterfaceHandler) (act_id target : Z)
    (func : Function) :
  py_getitem (FUNCTIONS lib) act_id = Ok func →
  ∃ call,
    postprocess_action lib self [[act_id]] [[target]] = Ok call ∧
    function call = act_id ∧
    length (arguments call) = length (args func) ∧
    (∀ k arg, args func !! k = Some arg →
       (name arg = "screen" ∨ name arg = "minimap" ∨ name arg = "screen2" →
        arguments call !! k = Some (target_point self target)) ∧
       (name arg ≠ "screen" → name arg ≠ "minimap" → name arg ≠ "screen2" →
        arguments call !! k = Some [0%Z])) ∧
    (length (args func) = 3 →
     length (filter (λ arg, name arg = "screen" ∨ name arg = "minimap"
                            ∨ name arg = "screen2") (args func)) = 2 →
     length (arguments call) = 3 ∧
     length (filter (λ v, v = target_point self target) (arguments call)) = 2 ∧
     length (filter (λ v, v = [0%Z]) (arguments call)) = 1).
Proof.
  intros Hfunc. eexists. split; [by apply postprocess_action_eq|]. simpl.
  split; [done|]. split; [by rewrite length_fmap|]. split.
  - intros k arg Hk. rewrite list_lookup_fmap, Hk. simpl.
    unfold slot_value, is_spatial.
    pose proof (is_spatial_name_iff (name arg)) as Hiff.
    destruct (is_spatial_name (name arg)); split; try done.
    + intros H1 H2 H3. destruct (proj1 Hiff eq_refl) as [?|[?|?]]; done.
    + intros Hname. by apply Hiff in Hname.
  - rewrite length_fmap. intros Hlen Hsp. split; [done|].
    rewrite (list_filter_iff _ (λ arg, is_spatial arg = true)) in Hsp.
    2:{ intros arg. symmetry. apply is_spatial_name_iff. }
    destruct (args func) as [|a [|b [|c [|? ?]]]]; try discriminate.
    revert Hsp. unfold slot_value, target_point; simpl.
    rewrite !filter_cons, !filter_nil.
    destruct (is_spatial a), (is_spatial b), (is_spatial c);
      repeat case_decide; simpl; try done; congruence.
Qed.

(** ** Classification of the action vocabulary *)

Lemma scan_args_flag (func_id : nat) (slots : list ArgumentType)
    (flags : list bool) :
  func_id < length flags →
  scan_args func_id slots flags
  = Ok (if existsb is_spatial slots then <[func_id := false]> flags else flags).
Proof.
  intros Hlt. induction slots as [|arg slots IH]; simpl; [done|].
  unfold is_spatial at 1.
  destruct (is_spatial_name (name arg)); simpl; [|done].
  unfold py_setitem. by rewrite (proj2 (Nat.ltb_lt _ _) Hlt).
Qed.

Lemma nonspatial_loop (funcs : list Function) (done_flags : list bool) :
  for_each (λ '(func_id, func) non_spatial_actions,
              scan_args func_id (args func) non_spatial_actions)
           (zip (seq (length done_flags) (length funcs)) funcs)
           (done_flags ++ replicate (length funcs) true)
  = Ok (done_flags ++ (no_spatial_slot <$> funcs)).
Proof.
  revert done_flags.
  induction funcs as [|func funcs IH]; intros done_flags; simpl; [done|].
  rewrite scan_args_flag by (rewrite length_app; simpl; lia).
  assert (Hstep :
    (if existsb is_spatial (args func)
     then <[length done_flags := false]>
            (done_flags ++ true :: replicate (length funcs) true)
     else done_flags ++ true :: replicate (length funcs) true)
    = (done_flags ++ [no_spatial_slot func])
        ++ replicate (length funcs) true).
  { unfold no_spatial_slot. rewrite <- app_assoc. simpl.
    destruct (existsb is_spatial (args func)); simpl; [|done].
    rewrite insert_app_r_alt by lia.
    by rewrite Nat.sub_diag. }
  rewrite Hstep. simpl.
  specialize (IH (done_flags ++ [no_spatial_slot func])).
  rewrite length_app in IH. simpl in IH.
  rewrite Nat.add_1_r in IH. rewrite IH.
  by rewrite <- app_assoc.
Qed.

(** The table built at construction marks an action non-spatial exactly
    when none of its argument slots is spatial. *)
Lemma get_nonspatial_actions_eq (lib : pysc2) :
  _get_nonspatial_actions lib (length (FUNCTIONS lib))
  = Ok (no_spatial_slot <$> FUNCTIONS lib).
Proof.
  unfold _get_nonspatial_actions, enumerate.
  apply (nonspatial_loop (FUNCTIONS lib) []).
Qed.

Lemma init_non_spatial_actions (lib : pysc2) (mode : string)
    (self : GameInterfaceHandler) :
  __init__ lib mode = Ok self →
  num_action self = length (FUNCTIONS lib) ∧
  non_spatial_actions self = (no_spatial_slot <$> FUNCTIONS lib).
Proof.
  unfold __init__. destruct (assert _); simpl; [|discriminate].
  rewrite get_nonspatial_actions_eq. simpl. intros [= <-]. done.
Qed.

(** C7: the handler is constructed with the table that marks an action
    non-spatial exactly when none of its slots is spatial, but the lookup
    [is_nonspatial_action] applies the call operator to that list, so for
    every action identifier it raises TypeError and returns no
    classification. *)
Theorem is_nonspatial_action_raises (lib : pysc2) (action_id : Z) :
  ∃ self,
    __init__ lib "dev" = Ok self ∧
    non_spatial_actions self = (no_spatial_slot <$> FUNCTIONS lib) ∧
    is_nonspatial_action self action_id = Raise TypeError.
Proof.
  destruct (__init__ lib "dev") as [self|e] eqn:Hinit.
  - exists self. split; [done|].
    split; [by apply (init_non_spatial_actions lib "dev")|done].
  - exfalso. revert Hinit. unfold __init__.
    rewrite get_nonspatial_actions_eq. done.
Qed.

(** ** Availability mask *)

Section AvailabilityMask.
Variable n : Z.

Let mark (acc : list Q) (k : Z) : list Q :=
  <[Z.to_nat (if (k <? 0)%Z then k + n else k)%Z := 1%Q]> acc.

Lemma mark_loop_length (idx : list Z) (a : list Q) :
  length (foldl mark a idx) = length a.
Proof.
  revert a. induction idx as [|k idx IH]; intros a; simpl; [done|].
  rewrite IH. apply length_insert.
Qed.

Lemma mark_loop_lookup (idx : list Z) (a : list Q) (i : nat) :
  Forall (λ k, (0 ≤ k)%Z) idx →
  foldl mark a idx !! i
  = if bool_decide (Z.of_nat i ∈ idx) then (λ _, 1%Q) <$> a !! i else a !! i.
Proof.
  revert a. induction idx as [|k idx IH]; intros a Hidx; cbn [foldl].
  - rewrite bool_decide_eq_false_2; [done|]. apply not_elem_of_nil.
  - inversion_clear Hidx as [|? ? Hk Hidx'].
    rewrite IH by done. unfold mark.
    rewrite (proj2 (Z.ltb_ge k 0)) by done.
    destruct (decide (Z.of_nat i = k)) as [<-|Hne].
    + rewrite Nat2Z.id.
      rewrite (bool_decide_eq_true_2 (_ ∈ _ :: _)) by apply list_elem_of_here.
      destruct (a !! i) as [x|] eqn:Hai.
      * rewrite list_lookup_insert_eq by (by eapply lookup_lt_Some).
        by case_bool_decide.
      * assert (<[i := 1%Q]> a !! i = None) as ->.
        { apply lookup_ge_None. rewrite length_insert.
          by apply lookup_ge_None. }
        by case_bool_decide.
    + rewrite list_lookup_insert_ne by lia.
      apply (f_equal (λ b : bool, if b then _ else _)).
      apply bool_decide_ext. rewrite elem_of_cons.
      split; [by right | by intros [?|?]].
Qed.

End AvailabilityMask.

Lemma setitem1_in_range (a : list Q) (idx : list Z) :
  Forall (λ k, (0 ≤ k < Z.of_nat (length a))%Z) idx →
  ∃ v, setitem1 a idx 1%Q = Ok v ∧ length v = length a ∧
       ∀ i, v !! i = if bool_decide (Z.of_nat i ∈ idx)
                     then (λ _, 1%Q) <$> a !! i else a !! i.
Proof.
  intros Hidx. unfold setitem1.
  assert (Hchk : forallb (λ i, (- Z.of_nat (length a) <=? i)%Z
                               && (i <? Z.of_nat (length a))%Z) idx = true).
  { apply forallb_forall. intros k Hk.
    rewrite Forall_forall in Hidx. apply list_elem_of_In, Hidx in Hk.
    apply andb_true_iff. split; [apply Z.leb_le | apply Z.ltb_lt]; lia. }
  rewrite Hchk. eexists. split; [done|]. split.
  - apply mark_loop_length.
  - intros i. apply mark_loop_lookup.
    eapply Forall_impl; [exact Hidx|]. simpl. lia.
Qed.

(** C5: for identifiers in [0, vocabularySize) the mask has the length of
    the vocabulary, holds 1 at the listed positions and 0 elsewhere, is the
    zero vector for the empty sequence, and depends on the set of listed
    identifiers only (duplicates change nothing). *)
Theorem preprocess_available_actions_mask
    (self : GameInterfaceHandler) (S : list Z) :
  Forall (λ k, (0 ≤ k < Z.of_nat (num_action self))%Z) S →
  ∃ v,
    _preprocess_available_actions self S = Ok v ∧
    length v = num_action self ∧
    (∀ i, i < num_action self →
       v !! i = Some (if bool_decide (Z.of_nat i ∈ S) then 1%Q else 0%Q)) ∧
    (∀ S', (∀ k, k ∈ S ↔ k ∈ S') →
       _preprocess_available_actions self S' = Ok v) ∧
    (∀ k, k ∈ S → _preprocess_available_actions self (k :: S) = Ok v) ∧
    (S = [] → v = replicate (num_action self) 0%Q).
Proof.
  intros HS. unfold _preprocess_available_actions.
  set (n := num_action self).
  assert (Hmask : ∀ T, Forall (λ k, (0 ≤ k < Z.of_nat n)%Z) T →
    ∃ v, setitem1 (replicate n 0%Q) T 1%Q = Ok v ∧ length v = n ∧
         ∀ i, v !! i = if bool_decide (i < n)
                       then Some (if bool_decide (Z.of_nat i ∈ T)
                                  then 1%Q else 0%Q)
                       else None).
  { intros T HT.
    destruct (setitem1_in_range (replicate n 0%Q) T) as (v & Hv & Hlen & Hlk).
    { by rewrite length_replicate. }
    exists v. rewrite length_replicate in Hlen.
    split; [done|]. split; [done|].
    intros i. rewrite Hlk. destruct (decide (i < n)) as [Hi|Hi].
    - rewrite (bool_decide_eq_true_2 (i < n)) by done.
      rewrite lookup_replicate_2 by done. by case_bool_decide.
    - rewrite (bool_decide_eq_false_2 (i < n)) by done.
      assert (replicate n 0%Q !! i = None) as ->.
      { apply lookup_replicate_None. lia. }
      by case_bool_decide. }
  assert (Hsame : ∀ T, (∀ k, k ∈ S ↔ k ∈ T) →
    ∀ v, setitem1 (replicate n 0%Q) S 1%Q = Ok v →
         setitem1 (replicate n 0%Q) T 1%Q = Ok v).
  { intros T HT v Hv.
    destruct (Hmask S HS) as (v1 & Hv1 & _ & Hlk1).
    destruct (Hmask T) as (v2 & Hv2 & _ & Hlk2).
    { rewrite Forall_forall in HS |- *. intros k Hk. by apply HS, HT. }
    rewrite Hv2. rewrite Hv in Hv1. injection Hv1 as <-. f_equal.
    apply list_eq. intros i. rewrite Hlk1, Hlk2.
    case_bool_decide; [|done]. f_equal.
    apply (f_equal (λ b : bool, if b then _ else _)).
    by apply bool_decide_ext. }
  destruct (Hmask S HS) as (v & Hv & Hlen & Hlk).
  exists v. split; [done|]. split; [done|]. split; [|split; [|split]].
  - intros i Hi. rewrite Hlk. by rewrite bool_decide_eq_true_2.
  - intros S' HS'. by apply Hsame.
  - intros k Hk. apply Hsame; [|done].
    intros k'. rewrite elem_of_cons.
    split; [by right | by intros [->|?]].
  - intros ->. by injection Hv as <-.
Qed.

(** ** One-hot encoding *)

Lemma ndarray_nested_ind {A : Type} (P : ndarray A → Prop) :
  (∀ a, P (Item a)) →
  (∀ l, Forall P l → P (Axis l)) →
  ∀ a, P a.
Proof.
  intros HItem HAxis. fix IH 1. intros [a|l].
  - apply HItem.
  - apply HAxis. induction l as [|b l IHl]; constructor; [apply IH | exact IHl].
Qed.

Lemma forallb_Forall {A : Type} (f : A → bool) (l : list A) :
  forallb f l = true ↔ Forall (λ x, f x = true) l.
Proof.
  induction l as [|x l IH]; simpl.
  - split; [constructor | done].
  - rewrite andb_true_iff, IH, Forall_cons. done.
Qed.

Lemma mapM_result_Forall2 {A B : Type} (f : A → result B)
    (l : list A) (k : list B) :
  Forall2 (λ x y, f x = Ok y) l k → mapM f l = Ok k.
Proof.
  induction 1 as [|x y l k Hxy _ IH]; simpl; [done|].
  rewrite Hxy. simpl. rewrite IH. done.
Qed.

Lemma to_int_index (depth : Z) (q : Q) :
  is_index depth q = true →
  to_int q = Qfloor q ∧ (0 ≤ Qfloor q < depth)%Z.
Proof.
  unfold is_index, to_int. rewrite !andb_true_iff.
  intros [[_ Hlo%Z.leb_le] Hhi%Z.ltb_lt]. split; [|lia].
  destruct (Z.ltb_spec (Qnum q) 0) as [Hneg|]; [|done].
  exfalso. destruct q as [num den]. simpl in *.
  assert (num / Z.pos den < 0)%Z by (apply Z.div_lt_upper_bound; lia). lia.
Qed.

Section OneHot.
Context {A : Type}.
Variable dt : dtype A.
Variable n : nat.

Let table : list (list A) :=
  (λ r, (λ c, if r =? c then one dt else zero dt) <$> seq 0 n) <$> seq 0 n.

Lemma eye_table : eye (Z.of_nat n) dt = Ok table.
Proof.
  unfold eye. rewrite (proj2 (Z.ltb_ge _ _)) by lia. by rewrite Nat2Z.id.
Qed.

Lemma take_row_table (k : Z) :
  (0 ≤ k < Z.of_nat n)%Z →
  take_row table k
  = Ok ((λ c, if Z.to_nat k =? c then one dt else zero dt) <$> seq 0 n).
Proof.
  intros Hk. unfold take_row.
  assert (Hlen : length table = n).
  { unfold table. by rewrite length_fmap, length_seq. }
  rewrite Hlen, (proj2 (Z.ltb_ge k 0)) by lia.
  rewrite (proj2 (Z.leb_le 0 k)), (proj2 (Z.ltb_lt k _)) by lia. simpl.
  unfold table. rewrite list_lookup_fmap, lookup_seq_lt by lia. done.
Qed.

(** Indexing the identity table with an array of valid indices. *)
Lemma getitem_array_table (indices : ndarray Q) :
  ∀ s,
    has_shape indices s = true →
    nd_all (is_index (Z.of_nat n)) indices = true →
    ∃ out,
      getitem_array table (astype_int indices) = Ok out ∧
      has_shape out (s ++ [n]) = true ∧
      ∀ path q, nd_get indices path = Some q →
        ∀ c, c < n →
          nd_get out (path ++ [c])
          = Some (if (Z.of_nat c =? Qfloor q)%Z then one dt else zero dt).
Proof.
  induction indices as [q|l IH] using ndarray_nested_ind; intros s Hs Hall.
  - destruct s as [|? ?]; [|discriminate]. simpl in Hall.
    apply to_int_index in Hall as [Hint Hrange].
    simpl. rewrite Hint, take_row_table by done. simpl.
    eexists. split; [done|]. split.
    + simpl. rewrite length_fmap, length_fmap, length_seq, Nat.eqb_refl. simpl.
      apply forallb_Forall, Forall_fmap, Forall_fmap, Forall_true. done.
    + intros path q' Hget c Hc.
      destruct path as [|? ?]; [|discriminate]. injection Hget as <-.
      simpl. rewrite !list_lookup_fmap, lookup_seq_lt by done. simpl.
      f_equal. destruct (Nat.eqb_spec (Z.to_nat (Qfloor q)) c) as [<-|Hne].
      * by rewrite Z2Nat.id, Z.eqb_refl by lia.
      * rewrite (proj2 (Z.eqb_neq _ _)); [done|]. lia.
  - destruct s as [|m s]; [discriminate|]. simpl in Hs, Hall.
    apply andb_true_iff in Hs as [Hlen%Nat.eqb_eq Hs].
    apply forallb_Forall in Hs. apply forallb_Forall in Hall.
    assert (Hl : ∃ l',
      mapM (getitem_array table) (astype_int <$> l) = Ok l' ∧
      Forall2 (λ b out,
        has_shape out (s ++ [n]) = true ∧
        ∀ path q, nd_get b path = Some q →
          ∀ c, c < n →
            nd_get out (path ++ [c])
            = Some (if (Z.of_nat c =? Qfloor q)%Z
                    then one dt else zero dt)) l l').
    { clear Hlen. induction IH as [|b l Hb _ IHl].
      - exists []. split; [done|constructor].
      - inversion_clear Hs as [|? ? Hsb Hsl].
        inversion_clear Hall as [|? ? Hab Hal].
        destruct (Hb s Hsb Hab) as (out & Hout & Hprop).
        destruct (IHl Hsl Hal) as (l' & Hl' & Hrel).
        exists (out :: l'). split; [|by constructor].
        rewrite fmap_cons.
        change (mapM (getitem_array table) (astype_int b :: (astype_int <$> l)))
          with (y ← getitem_array table (astype_int b);
                k ← mapM (getitem_array table) (astype_int <$> l);
                mret (y :: k)).
        rewrite Hout. simpl. rewrite Hl'. done. }
    destruct Hl as (l' & Hl' & Hrel).
    exists (Axis l'). split; [|split].
    + simpl. rewrite Hl'. done.
    + simpl. rewrite <- (Forall2_length _ _ _ Hrel), Hlen, Nat.eqb_refl. simpl.
      apply forallb_Forall. apply Forall_lookup. intros i out Hi.
      by destruct (Forall2_lookup_r _ _ _ _ _ Hrel Hi) as (b & _ & Hb & _).
    + intros path q Hget c Hc. destruct path as [|i path]; [discriminate|].
      simpl in Hget. destruct (l !! i) as [b|] eqn:Hi; [|discriminate].
      simpl in Hget.
      destruct (Forall2_lookup_l _ _ _ _ _ Hrel Hi) as (out & Hi' & _ & Hb).
      simpl. rewrite Hi'. simpl. by apply Hb.
Qed.

End OneHot.

(** C9: for integer indices in [0, depth) and [depth > 0], [one_hot]
    returns an array with one more trailing axis of size [depth], and the
    vector at every input position holds 1 at the position given by the
    index and 0 at every other position. *)
Theorem one_hot_indicator_vectors {A : Type} (dt : dtype A)
    (indices : ndarray Q) (depth : Z) (s : list nat) :
  (0 < depth)%Z →
  has_shape indices s = true →
  nd_all (is_index depth) indices = true →
  ∃ out,
    one_hot indices depth dt = Ok out ∧
    has_shape out (s ++ [Z.to_nat depth]) = true ∧
    ∀ path q, nd_get indices path = Some q →
      ∀ c, c < Z.to_nat depth →
        nd_get out (path ++ [c])
        = Some (if (Z.of_nat c =? Qfloor q)%Z then one dt else zero dt).
Proof.
  intros Hd Hs Hall. unfold one_hot.
  remember (Z.to_nat depth) as n eqn:Hn.
  assert (depth = Z.of_nat n) as -> by lia.
  rewrite eye_table. simpl.
  by apply getitem_array_table.
Qed.

(** ** Expansion of the feature layers *)

Ltac option_simpl :=
  cbn [fmap option_fmap option_map mbind option_bind mret option_ret].

Lemma alter_twice {A : Type} (f g : A → A) (i : nat) (l : list A) :
  alter f i (alter g i l) = alter (f ∘ g) i l.
Proof.
  revert i. induction l as [|x l IH]; intros [|i]; simpl; f_equal; auto.
  apply IH.
Qed.

Section Stores.
Context {A : Type}.
Variable v : A.

Lemma paint_nil (plane : list (list A)) : paint v [] plane = plane.
Proof.
  unfold paint. apply list_eq. intros y.
  rewrite list_lookup_imap. destruct (plane !! y) as [row|]; [|done].
  option_simpl. f_equal. apply list_eq. intros x.
  rewrite list_lookup_imap. destruct (row !! x); [|done]. option_simpl.
  rewrite bool_decide_eq_false_2; [done|]. apply not_elem_of_nil.
Qed.

Lemma paint_cons (y0 x0 : nat) (coords : list (nat * nat))
    (plane : list (list A)) :
  paint v coords (alter (<[x0 := v]>) y0 plane)
  = paint v ((y0, x0) :: coords) plane.
Proof.
  unfold paint. apply list_eq. intros y. rewrite !list_lookup_imap.
  destruct (decide (y0 = y)) as [->|Hy].
  - rewrite list_lookup_alter_eq.
    destruct (plane !! y) as [row|]; [|done]. option_simpl. f_equal.
    apply list_eq. intros x. rewrite !list_lookup_imap.
    destruct (decide (x0 = x)) as [->|Hx].
    + destruct (row !! x) as [old|] eqn:Hx.
      * rewrite list_lookup_insert_eq by (by eapply lookup_lt_Some).
        option_simpl. f_equal.
        rewrite (bool_decide_eq_true_2 (_ ∈ _ :: _))
          by apply list_elem_of_here.
        by case_bool_decide.
      * assert (<[x := v]> row !! x = None) as ->; [|done].
        apply lookup_ge_None. rewrite length_insert.
        by apply lookup_ge_None.
    + rewrite list_lookup_insert_ne by done.
      destruct (row !! x); [|done]. option_simpl. f_equal.
      apply (f_equal (λ b : bool, if b then _ else _)).
      apply bool_decide_ext. rewrite elem_of_cons.
      split; [by right | intros [?|?]; [congruence|done]].
  - rewrite list_lookup_alter_ne by done.
    destruct (plane !! y) as [row|]; [|done]. option_simpl. f_equal.
    apply list_eq. intros x. rewrite !list_lookup_imap.
    destruct (row !! x); [|done]. option_simpl. f_equal.
    apply (f_equal (λ b : bool, if b then _ else _)).
    apply bool_decide_ext. rewrite elem_of_cons.
    split; [by right | intros [?|?]; [congruence|done]].
Qed.

(** The stores of one fancy-index assignment paint channel [j]. *)
Lemma store_loop (j : nat) (coords : list (nat * nat))
    (its : list (list (list A))) :
  foldl (store3 v j) its coords = alter (paint v coords) j its.
Proof.
  revert its. induction coords as [|[y0 x0] coords IH]; intros its; simpl.
  - symmetry. apply list_alter_id, paint_nil.
  - rewrite IH. unfold store3 at 1. simpl.
    rewrite alter_twice. apply list_alter_ext; [|done].
    intros plane _. simpl. apply paint_cons.
Qed.

End Stores.

Lemma elem_of_nonzero_row (y x y' x0 : nat) (row : list bool) :
  (y, x) ∈ nonzero_row y' x0 row
  ↔ y = y' ∧ x0 ≤ x ∧ row !! (x - x0) = Some true.
Proof.
  revert x0. induction row as [|b row IH]; intros x0; simpl.
  - rewrite elem_of_nil. split; [done | by intros (_ & _ & ?)].
  - rewrite elem_of_app, IH. split.
    + intros [Hhd|(-> & Hle & Hlk)].
      * destruct b; [|by apply elem_of_nil in Hhd].
        apply list_elem_of_singleton in Hhd as [= -> ->].
        by rewrite Nat.sub_diag.
      * split; [done|]. split; [lia|].
        by replace (x - x0) with (S (x - S x0)) by lia.
    + intros (-> & Hle & Hlk).
      destruct (decide (x = x0)) as [->|Hne].
      * left. rewrite Nat.sub_diag in Hlk. injection Hlk as ->.
        apply list_elem_of_here.
      * right. split; [done|]. split; [lia|].
        by replace (x - x0) with (S (x - S x0)) in Hlk by lia.
Qed.

Lemma elem_of_nonzero_from (y x y0 : nat) (mask : list (list bool)) :
  (y, x) ∈ nonzero_from y0 mask
  ↔ y0 ≤ y ∧ ∃ row, mask !! (y - y0) = Some row ∧ row !! x = Some true.
Proof.
  revert y0. induction mask as [|row mask IH]; intros y0; simpl.
  - rewrite elem_of_nil. split; [done | by intros (_ & ? & ? & _)].
  - rewrite elem_of_app, elem_of_nonzero_row, IH, Nat.sub_0_r. split.
    + intros [(-> & _ & Hlk)|(Hle & row' & Hrow' & Hlk)].
      * split; [done|]. exists row. by rewrite Nat.sub_diag.
      * split; [lia|]. exists row'.
        by replace (y - y0) with (S (y - S y0)) by lia.
    + intros (Hle & row' & Hrow' & Hlk).
      destruct (decide (y = y0)) as [->|Hne].
      * left. rewrite Nat.sub_diag in Hrow'. injection Hrow' as ->.
        split; [done|]. split; [lia|done].
      * right. split; [lia|]. exists row'.
        by replace (y - y0) with (S (y - S y0)) in Hrow' by lia.
Qed.

Lemma zip_projections {A B : Type} (l : list (A * B)) : zip (l.*1) (l.*2) = l.
Proof. induction l as [|[a b] l IH]; simpl; [done|]. f_equal. apply IH. Qed.

Section Expansion.
Variable plane : list (list Q).
Variables H W : nat.
Hypothesis plane_rows : length plane = H.
Hypothesis plane_cols : Forall (λ row : list Q, length row = W) plane.

Let zero_plane : list (list R) := replicate H (replicate W 0%R).

Lemma mask_lookup (j y x : nat) :
  (y, x) ∈ nonzero_from 0 (eq_scalar plane j)
  ↔ ∃ row q, plane !! y = Some row ∧ row !! x = Some q ∧
             Qeq_bool q (inject_Z (Z.of_nat j)) = true.
Proof.
  rewrite elem_of_nonzero_from, Nat.sub_0_r. unfold eq_scalar.
  rewrite list_lookup_fmap. split.
  - intros (_ & mrow & Hrow & Hx).
    destruct (plane !! y) as [row|]; [|discriminate].
    injection Hrow as <-. rewrite list_lookup_fmap in Hx.
    destruct (row !! x) as [q|] eqn:Hq; [|discriminate].
    injection Hx as Hx. by exists row, q.
  - intros (row & q & -> & Hq & Hx). split; [lia|].
    eexists. split; [done|]. by rewrite list_lookup_fmap, Hq, <- Hx.
Qed.

Lemma mask_in_bounds (j : nat) :
  let coords := nonzero_from 0 (eq_scalar plane j) in
  forallb (λ y, y <? H) (coords.*1) = true ∧
  forallb (λ x, x <? W) (coords.*2) = true.
Proof.
  intros coords.
  assert (Hin : ∀ y x, (y, x) ∈ coords → y < H ∧ x < W).
  { intros y x (row & q & Hrow & Hq & _)%mask_lookup. split.
    - rewrite <- plane_rows. by eapply lookup_lt_Some.
    - rewrite <- (Forall_lookup_1 _ _ _ _ plane_cols Hrow).
      by eapply lookup_lt_Some. }
  split; apply forallb_Forall, Forall_fmap, Forall_forall;
    intros [y x] Hyx; destruct (Hin y x Hyx); simpl;
    by apply Nat.ltb_lt.
Qed.

(** Painting the zero plane at the coordinates where the raw plane equals
    [j] gives the indicator map of [j]. *)
Lemma paint_zero_plane (j : nat) :
  paint 1%R (nonzero_from 0 (eq_scalar plane j)) zero_plane
  = indicator j plane.
Proof.
  unfold paint, indicator, zero_plane. apply list_eq. intros y.
  rewrite list_lookup_imap, list_lookup_fmap.
  destruct (plane !! y) as [row|] eqn:Hrow.
  - rewrite lookup_replicate_2
      by (rewrite <- plane_rows; by eapply lookup_lt_Some).
    option_simpl. f_equal. apply list_eq. intros x.
    rewrite list_lookup_imap, list_lookup_fmap.
    destruct (row !! x) as [q|] eqn:Hq.
    + rewrite lookup_replicate_2.
      2:{ rewrite <- (Forall_lookup_1 _ _ _ _ plane_cols Hrow).
          by eapply lookup_lt_Some. }
      option_simpl. f_equal.
      destruct (Qeq_bool q (inject_Z (Z.of_nat j))) eqn:Hj.
      * rewrite bool_decide_eq_true_2; [done|].
        apply mask_lookup. by exists row, q.
      * rewrite bool_decide_eq_false_2; [done|].
        intros (row' & q' & Hrow' & Hq' & Hj')%mask_lookup. congruence.
    + assert (replicate W 0%R !! x = None) as ->; [|done].
      apply lookup_replicate_None.
      rewrite <- (Forall_lookup_1 _ _ _ _ plane_cols Hrow).
      by apply lookup_ge_None.
  - assert (replicate H (replicate W 0%R) !! y = None) as ->; [|done].
    apply lookup_replicate_None. rewrite <- plane_rows.
    by apply lookup_ge_None.
Qed.

(** One iteration of the inner loop. *)
Lemma setitem3_mask (C j : nat) (its : list (list (list R))) :
  j < C →
  (let '(indy, indx) := nonzero (eq_scalar plane j) in
   setitem3 (Nd3 C H W its) j indy indx 1%R)
  = Ok (Nd3 C H W
          (alter (paint 1%R (nonzero_from 0 (eq_scalar plane j))) j its)).
Proof.
  intros Hj. unfold nonzero, setitem3. cbn [shape0 shape1 shape2 items].
  destruct (mask_in_bounds j) as [Hy Hx].
  rewrite !length_fmap, Nat.eqb_refl, (proj2 (Nat.ltb_lt j C) Hj), Hy, Hx.
  cbn [negb]. by rewrite zip_projections, store_loop.
Qed.

Let state (C k : nat) : list (list (list R)) :=
  (λ c, if c <? k then indicator c plane else zero_plane) <$> seq 0 C.

Lemma state_step (C k : nat) :
  k < C →
  alter (paint 1%R (nonzero_from 0 (eq_scalar plane k))) k (state C k)
  = state C (S k).
Proof.
  intros Hk. unfold state. apply list_eq. intros c.
  destruct (decide (k = c)) as [<-|Hne].
  - rewrite list_lookup_alter_eq, !list_lookup_fmap, lookup_seq_lt by done.
    option_simpl. cbn [Nat.add].
    rewrite Nat.ltb_irrefl, (proj2 (Nat.ltb_lt k (S k))) by lia.
    by rewrite paint_zero_plane.
  - rewrite list_lookup_alter_ne, !list_lookup_fmap by done.
    destruct (seq 0 C !! c) as [c'|] eqn:Hc; [|done].
    apply lookup_seq in Hc as [-> _]. option_simpl. cbn [Nat.add]. f_equal.
    destruct (Nat.ltb_spec c k), (Nat.ltb_spec c (S k)); (done || lia).
Qed.

Variable screen : ndarray3 Q.
Variable i : nat.
Hypothesis screen_plane : items screen !! i = Some plane.
Hypothesis screen_shape1 : shape1 screen = H.
Hypothesis screen_shape2 : shape2 screen = W.

Lemma expand_loop (C m : nat) :
  ∀ k, k + m ≤ C →
    for_each (λ j layer,
                plane ← getitem screen i;
                let '(indy, indx) := nonzero (eq_scalar plane j) in
                setitem3 layer j indy indx 1%R)
             (seq k m) (Nd3 C H W (state C k))
    = Ok (Nd3 C H W (state C (k + m))).
Proof.
  unfold getitem. rewrite screen_plane. cbn [mbind result_bind].
  induction m as [|m IH]; intros k Hk; cbn [for_each seq].
  - by rewrite Nat.add_0_r.
  - rewrite setitem3_mask by lia. cbn [mbind result_bind].
    rewrite state_step by lia.
    rewrite IH by lia. by rewrite Nat.add_succ_r.
Qed.

(** The categorical branch computes the indicator maps of the categories
    [0 .. scale - 1], in this order. *)
Lemma expand_layer_eq (feature : Feature) :
  expand_layer screen i feature
  = Ok (Nd3 (scale feature) H W
          ((λ j, indicator j plane) <$> seq 0 (scale feature))).
Proof.
  unfold expand_layer. rewrite screen_shape1, screen_shape2.
  set (C := scale feature).
  assert (Hinit : zeros3 0%R C H W = Nd3 C H W (state C 0)).
  { unfold zeros3, state. f_equal. apply list_eq. intros c.
    rewrite list_lookup_fmap.
    destruct (decide (c < C)) as [Hc|Hc].
    - by rewrite lookup_replicate_2, lookup_seq_lt by done.
    - rewrite lookup_seq_ge by lia.
      apply lookup_replicate_None. lia. }
  rewrite Hinit, (expand_loop C C 0) by lia. do 2 f_equal.
  unfold state. apply list_fmap_ext. intros ? c [-> Hc]%lookup_seq.
  by rewrite (proj2 (Nat.ltb_lt _ _)) by lia.
Qed.

End Expansion.

(** ** The layer loop and the concatenation *)

Lemma count_channels_sum (catalog : list Feature) :
  count_channels catalog = sum_list (channels_of <$> catalog).
Proof.
  unfold count_channels.
  assert (Hacc : ∀ acc,
    foldl (λ channels feature,
             match type feature with
             | SCALAR => channels + 1
             | CATEGORICAL => channels + scale feature
             end) acc catalog
    = acc + sum_list (channels_of <$> catalog)).
  { induction catalog as [|feature catalog IH]; intros acc; [simpl; lia|].
    cbn [foldl]. rewrite IH, fmap_cons.
    change (sum_list (channels_of feature :: (channels_of <$> catalog)))
      with (channels_of feature + sum_list (channels_of <$> catalog)).
    generalize (sum_list (channels_of <$> catalog)). intros rest.
    unfold channels_of. destruct (type feature); lia. }
  apply Hacc.
Qed.

Lemma block_length (feature : Feature) (plane : list (list Q)) :
  length (block feature plane) = channels_of feature.
Proof.
  unfold block, channels_of. destruct (type feature); [done|].
  by rewrite length_fmap, length_seq.
Qed.

Section LayerLoop.
Variable screen : ndarray3 Q.
Hypothesis screen_wf : wf3 screen.

Let H := shape1 screen.
Let W := shape2 screen.

Lemma screen_plane_dims (i : nat) (plane : list (list Q)) :
  items screen !! i = Some plane →
  length plane = H ∧ Forall (λ row : list Q, length row = W) plane.
Proof.
  intros Hi. destruct screen_wf as [_ Hplanes].
  apply (Forall_lookup_1 _ _ _ _ Hplanes Hi).
Qed.

Lemma layer_loop (feats : list Feature) :
  ∀ i layers,
    i + length feats ≤ length (items screen) →
    for_each
      (λ '(i, feature) layers,
         match type feature with
         | SCALAR => Ok (layers ++ [log_plus_one (slice1 screen i)])
         | CATEGORICAL =>
             layer ← expand_layer screen i feature;
             Ok (layers ++ [layer])
         end)
      (zip (seq i (length feats)) feats) layers
    = Ok (layers ++ zip_with (layer_array H W) feats (drop i (items screen))).
Proof.
  induction feats as [|feature feats IH]; intros i layers Hlen.
  - simpl. by rewrite app_nil_r.
  - simpl in Hlen.
    destruct (items screen !! i) as [plane|] eqn:Hi.
    2:{ apply lookup_ge_None in Hi. lia. }
    rewrite (drop_S _ _ _ Hi).
    cbn [length seq zip_with for_each].
    assert (Hbody :
      match type feature with
      | SCALAR => Ok (layers ++ [log_plus_one (slice1 screen i)])
      | CATEGORICAL =>
          layer ← expand_layer screen i feature;
          Ok (layers ++ [layer])
      end = Ok (layers ++ [layer_array H W feature plane])).
    { unfold layer_array, block, channels_of.
      destruct (type feature).
      - do 3 f_equal. unfold log_plus_one, slice1, map3.
        cbn [shape0 shape1 shape2 items].
        rewrite (drop_S _ _ _ Hi). cbn [take fmap list_fmap].
        destruct screen_wf as [<- _].
        replace (Nat.min 1 (length (items screen) - i)) with 1 by lia.
        done.
      - destruct (screen_plane_dims i plane Hi) as [Hrows Hcols].
        by rewrite (expand_layer_eq plane H W Hrows Hcols screen i Hi). }
    rewrite Hbody. cbn [mbind result_bind].
    rewrite IH by lia. by rewrite <- app_assoc.
Qed.

Lemma layers_shape0 (catalog : list Feature) (planes : list (list (list Q))) :
  length planes = length catalog →
  sum_list (shape0 <$> zip_with (layer_array H W) catalog planes)
  = sum_list (channels_of <$> catalog).
Proof.
  revert planes.
  induction catalog as [|feature catalog IH]; intros [|plane planes] Hlen;
    simpl in *; try done.
  rewrite IH by lia. done.
Qed.

Lemma layers_items (catalog : list Feature) (planes : list (list (list Q))) :
  items <$> zip_with (layer_array H W) catalog planes
  = zip_with block catalog planes.
Proof.
  revert planes.
  induction catalog as [|feature catalog IH]; intros [|plane planes];
    simpl; try done.
  by rewrite IH.
Qed.

Lemma layers_dims (catalog : list Feature) (planes : list (list (list Q))) :
  forallb (λ b : ndarray3 R, (shape1 b =? H) && (shape2 b =? W))
          (zip_with (layer_array H W) catalog planes) = true.
Proof.
  revert planes.
  induction catalog as [|feature catalog IH]; intros [|plane planes];
    simpl; try done.
  by rewrite !Nat.eqb_refl, IH.
Qed.

(** On a well-formed array with as many layers as the catalog has
    entries, and a catalog that is not empty, the preprocessing returns
    the encoded map. *)
Lemma preprocess_eq (catalog : list Feature) :
  shape0 screen = length catalog →
  catalog ≠ [] →
  preprocess catalog screen = Ok (encoded catalog screen).
Proof.
  intros Hshape Hne. unfold preprocess, assert.
  rewrite (proj2 (Nat.eqb_eq _ _) Hshape). cbn [mbind result_bind].
  assert (Hlen : length (items screen) = length catalog).
  { destruct screen_wf as [-> _]. done. }
  unfold enumerate. rewrite (layer_loop catalog 0 []) by lia.
  rewrite drop_0. cbn [mbind result_bind app]. unfold concatenate.
  destruct catalog as [|feature catalog]; [done|].
  destruct (items screen) as [|plane planes] eqn:Hitems; [done|].
  cbn [zip_with].
  change (layer_array H W feature plane
            :: zip_with (layer_array H W) catalog planes)
    with (zip_with (layer_array H W) (feature :: catalog) (plane :: planes)).
  change (shape1 (layer_array H W feature plane)) with H.
  change (shape2 (layer_array H W feature plane)) with W.
  rewrite layers_dims, layers_shape0, layers_items by done.
  unfold encoded. by rewrite Hitems.
Qed.

End LayerLoop.

(** ** Reading the encoded map *)

Lemma encoded_channel (catalog : list Feature) :
  ∀ (planes : list (list (list Q))) (i j : nat) feature plane,
    catalog !! i = Some feature →
    planes !! i = Some plane →
    j < channels_of feature →
    concat (zip_with block catalog planes) !! (channel_offset catalog i + j)
    = block feature plane !! j.
Proof.
  unfold channel_offset.
  induction catalog as [|f0 catalog IH];
    intros [|p0 planes] [|i] j feature plane Hcat Hpl Hj; try done.
  - injection Hcat as ->. injection Hpl as ->. simpl.
    rewrite lookup_app_l by (by rewrite block_length). done.
  - cbn [take fmap list_fmap zip_with concat].
    change (sum_list (channels_of f0 :: (channels_of <$> take i catalog)))
      with (channels_of f0 + sum_list (channels_of <$> take i catalog)).
    rewrite lookup_app_r by (rewrite block_length; lia).
    rewrite block_length.
    replace (channels_of f0 + sum_list (channels_of <$> take i catalog) + j
             - channels_of f0)
      with (sum_list (channels_of <$> take i catalog) + j) by lia.
    by apply IH.
Qed.

Section Pixels.
Variable catalog : list Feature.
Variable screen : ndarray3 Q.
Variables (i y x : nat) (feature : Feature) (v : Q).
Hypothesis layer_entry : catalog !! i = Some feature.
Hypothesis raw_pixel : pixel screen i y x = Some v.

Lemma raw_pixel_plane :
  ∃ plane row, items screen !! i = Some plane ∧ plane !! y = Some row ∧
               row !! x = Some v.
Proof.
  unfold pixel in raw_pixel.
  destruct (items screen !! i) as [plane|]; [|done].
  cbn [mbind option_bind] in raw_pixel.
  destruct (plane !! y) as [row|] eqn:Hrow; [|done].
  cbn [mbind option_bind] in raw_pixel. by exists plane, row.
Qed.

(** A scalar layer fills one channel with [log (v + 1)]. *)
Lemma encoded_scalar_pixel :
  type feature = SCALAR →
  pixel (encoded catalog screen) (channel_offset catalog i) y x
  = Some (ln (Q2R v + 1)%R).
Proof.
  intros Hty. destruct raw_pixel_plane as (plane & row & Hpl & Hrow & Hv).
  unfold pixel, encoded. cbn [items].
  rewrite <- (Nat.add_0_r (channel_offset catalog i)).
  rewrite (encoded_channel catalog _ i 0 feature plane)
    by (done || (unfold channels_of; rewrite Hty; lia)).
  unfold block, log_plane. rewrite Hty. cbn [lookup list_lookup].
  option_simpl. rewrite list_lookup_fmap, Hrow. option_simpl.
  by rewrite list_lookup_fmap, Hv.
Qed.

(** A categorical layer fills channel [j] of its block with the
    indicator of [v = j]. *)
Lemma encoded_categorical_pixel (j : nat) :
  type feature = CATEGORICAL →
  j < scale feature →
  pixel (encoded catalog screen) (channel_offset catalog i + j) y x
  = Some (if Qeq_bool v (inject_Z (Z.of_nat j)) then 1%R else 0%R).
Proof.
  intros Hty Hj. destruct raw_pixel_plane as (plane & row & Hpl & Hrow & Hv).
  unfold pixel, encoded. cbn [items].
  rewrite (encoded_channel catalog _ i j feature plane)
    by (done || (unfold channels_of; by rewrite Hty)).
  unfold block, indicator. rewrite Hty.
  rewrite list_lookup_fmap, lookup_seq_lt by done.
  option_simpl. rewrite list_lookup_fmap, Hrow. option_simpl.
  by rewrite list_lookup_fmap, Hv.
Qed.

End Pixels.

Lemma block_dims (h w : nat) (feature : Feature) (plane : list (list Q)) :
  length plane = h →
  Forall (λ row : list Q, length row = w) plane →
  Forall (λ p : list (list R),
            length p = h ∧ Forall (λ row : list R, length row = w) p)
         (block feature plane).
Proof.
  intros Hrows Hcols.
  assert (Hmap : ∀ f : Q → R,
    length (fmap (M:=list) (fmap (M:=list) f) plane) = h ∧
    Forall (λ row : list R, length row = w)
           (fmap (M:=list) (fmap (M:=list) f) plane)).
  { intros f. split; [by rewrite length_fmap|].
    apply Forall_fmap. eapply Forall_impl; [exact Hcols|].
    intros row Hrow. simpl. by rewrite length_fmap. }
  unfold block. destruct (type feature).
  - repeat constructor; apply Hmap.
  - apply Forall_fmap, Forall_forall. intros j _. apply Hmap.
Qed.

Lemma encoded_wf (catalog : list Feature) (screen : ndarray3 Q) :
  wf3 screen →
  shape0 screen = length catalog →
  wf3 (encoded catalog screen).
Proof.
  intros [Hlen Hplanes] Hshape. rewrite Hshape in Hlen. clear Hshape.
  unfold wf3, encoded. cbn [items shape0 shape1 shape2].
  revert Hlen Hplanes. generalize (items screen) as planes.
  induction catalog as [|feature catalog IH]; intros [|plane planes] Hlen Hpl;
    try done.
  inversion_clear Hpl as [|? ? [Hrows Hcols] Hpl'].
  destruct (IH planes) as [IHlen IHall]; [by injection Hlen | done |].
  cbn [zip_with concat fmap list_fmap]. split.
  - rewrite length_app, block_length, IHlen. done.
  - apply Forall_app. split; [by apply block_dims | done].
Qed.

Lemma preprocess_map_eq (lib : pysc2) (m : map_type) (screen : ndarray3 Q) :
  preprocess_map lib m screen = preprocess (catalog_of lib m) screen.
Proof. by destruct m. Qed.

Lemma get_map_eq (lib : pysc2) (m : map_type) (obs : observation) :
  get_map lib m obs
  = (a ← preprocess_map lib m (raw_map obs m); Ok (expand_dims0 a)).
Proof. by destruct m. Qed.

Lemma preprocess_map_encoded (lib : pysc2) (m : map_type)
    (screen : ndarray3 Q) (i : nat) (feature : Feature) :
  wf3 screen →
  shape0 screen = length (catalog_of lib m) →
  catalog_of lib m !! i = Some feature →
  preprocess_map lib m screen = Ok (encoded (catalog_of lib m) screen).
Proof.
  intros Hwf Hshape Hi. rewrite preprocess_map_eq.
  apply preprocess_eq; [done..|]. intros Hnil. by rewrite Hnil in Hi.
Qed.

(** ** Vectors of indicators *)

Lemma category_test (v : Q) (j k : nat) :
  (v == inject_Z (Z.of_nat k))%Q →
  Qeq_bool v (inject_Z (Z.of_nat j)) = bool_decide (j = k).
Proof.
  intros Hv. case_bool_decide as Hjk.
  - subst j. by apply Qeq_bool_iff.
  - apply not_true_is_false. intros Hj%Qeq_bool_iff.
    rewrite Hv in Hj. apply (proj1 (inject_Z_injective _ _)) in Hj. lia.
Qed.

Lemma column_eq (a : ndarray3 R) (off C y x : nat) (g : nat → R) :
  (∀ j, j < C → pixel a (off + j) y x = Some (g j)) →
  column a off C y x = g <$> seq 0 C.
Proof.
  unfold column. intros Hpx.
  assert (Hgen : ∀ m s, s + m ≤ C →
    omap (λ j, pixel a (off + j) y x) (seq s m) = g <$> seq s m).
  { induction m as [|m IH]; intros s Hs; [done|].
    cbn [seq omap list_omap fmap list_fmap].
    rewrite Hpx by lia. f_equal. apply IH. lia. }
  by apply Hgen.
Qed.

Lemma argmax_from_settled (f : nat → R) (best : R) (best_i m : nat) :
  ∀ s, (∀ j, s ≤ j < s + m → ¬ (best < f j)%R) →
       argmax_from best_i best s (f <$> seq s m) = best_i.
Proof.
  induction m as [|m IH]; intros s Hle; [done|].
  cbn [seq fmap list_fmap argmax_from].
  destruct (Rlt_dec best (f s)) as [Hlt|_].
  - exfalso. apply (Hle s); [lia|done].
  - apply IH. intros j Hj. apply Hle. lia.
Qed.

Lemma argmax_from_one_hot (k best_i m : nat) :
  ∀ s, s ≤ k < s + m →
       argmax_from best_i 0%R s
         ((λ j, if bool_decide (j = k) then 1%R else 0%R) <$> seq s m) = k.
Proof.
  induction m as [|m IH]; intros s Hk; [lia|].
  cbn [seq fmap list_fmap argmax_from].
  case_bool_decide as Hs.
  - subst s. destruct (Rlt_dec 0 1) as [_|Hn]; [|exfalso; apply Hn; lra].
    apply argmax_from_settled. intros j _. case_bool_decide; lra.
  - destruct (Rlt_dec 0 0) as [Hlt|_]; [lra|]. apply IH. lia.
Qed.

Lemma argmax_one_hot (C k : nat) :
  k < C →
  argmax ((λ j, if bool_decide (j = k) then 1%R else 0%R) <$> seq 0 C) = k.
Proof.
  intros Hk. destruct C as [|C]; [lia|].
  cbn [seq fmap list_fmap argmax]. case_bool_decide as H0.
  - subst k. apply argmax_from_settled. intros j _. case_bool_decide; lra.
  - apply argmax_from_one_hot. lia.
Qed.

Lemma Rsum_indicators (p : nat → bool) (m : nat) :
  (∀ j j', p j = true → p j' = true → j = j') →
  ∀ s, Rsum ((λ j, if p j then 1%R else 0%R) <$> seq s m)
       = if existsb p (seq s m) then 1%R else 0%R.
Proof.
  intros Huniq. induction m as [|m IH]; intros s; [done|].
  cbn [seq fmap list_fmap existsb]. unfold Rsum. cbn [foldr].
  fold (Rsum ((λ j, if p j then 1%R else 0%R) <$> seq (S s) m)).
  rewrite IH. destruct (p s) eqn:Hs; simpl.
  - assert (existsb p (seq (S s) m) = false) as ->; [|lra].
    apply not_true_is_false. intros (j & Hj & Hpj)%existsb_exists.
    apply in_seq in Hj. specialize (Huniq s j Hs Hpj). lia.
  - destruct (existsb p (seq (S s) m)); lra.
Qed.

(** ** The encoded tensors *)

(** C1: for a categorical layer of cardinality [scale feature] and a pixel
    whose raw value is an integer [k] below the cardinality, each of the
    expanded channels is 1 or 0 at that pixel, the channel that is 1 is
    channel [k] and no other, and [argmax] over the expanded channels
    returns [k]; this holds for the screen and for the minimap. *)
Theorem categorical_expansion_one_hot
    (lib : pysc2) (m : map_type) (screen : ndarray3 Q)
    (i y x k : nat) (feature : Feature) (v : Q) :
  wf3 screen →
  shape0 screen = length (catalog_of lib m) →
  catalog_of lib m !! i = Some feature →
  type feature = CATEGORICAL →
  pixel screen i y x = Some v →
  (v == inject_Z (Z.of_nat k))%Q →
  k < scale feature →
  ∃ out,
    preprocess_map lib m screen = Ok out ∧
    (∀ j, j < scale feature →
       pixel out (channel_offset (catalog_of lib m) i + j) y x
       = Some (if bool_decide (j = k) then 1%R else 0%R)) ∧
    (∀ j, j < scale feature →
       (pixel out (channel_offset (catalog_of lib m) i + j) y x = Some 1%R
        ↔ j = k) ∧
       (pixel out (channel_offset (catalog_of lib m) i + j) y x = Some 0%R
        ↔ j ≠ k)) ∧
    argmax (column out (channel_offset (catalog_of lib m) i)
                   (scale feature) y x) = k.
Proof.
  intros Hwf Hshape Hi Hty Hpx Hv Hk.
  exists (encoded (catalog_of lib m) screen).
  split; [by eapply preprocess_map_encoded|].
  assert (Hch : ∀ j, j < scale feature →
    pixel (encoded (catalog_of lib m) screen)
          (channel_offset (catalog_of lib m) i + j) y x
    = Some (if bool_decide (j = k) then 1%R else 0%R)).
  { intros j Hj.
    rewrite (encoded_categorical_pixel _ _ i y x feature v) by done.
    by rewrite (category_test v j k). }
  split; [exact Hch|]. split.
  - intros j Hj. rewrite (Hch j Hj).
    case_bool_decide as Hjk; (split; split; intros Heq; try done).
    + injection Heq as Heq. lra.
    + injection Heq as Heq. lra.
  - rewrite (column_eq _ _ _ _ _ _ Hch). by apply argmax_one_hot.
Qed.

(** C2: for a well-formed raw map with as many layers as the catalog has
    entries, [get_screen] and [get_minimap] return an array of shape
    [(1, totalChannels, H, W)] whose entries fill that shape, where
    [totalChannels] is the value of the [screen_channels] or
    [minimap_channels] property, the sum over the catalog of 1 for a scalar
    layer and of the cardinality otherwise; the raw values play no part. *)
Theorem get_map_shape (lib : pysc2) (m : map_type) (obs : observation) :
  wf3 (raw_map obs m) →
  shape0 (raw_map obs m) = length (catalog_of lib m) →
  catalog_of lib m ≠ [] →
  ∃ t,
    get_map lib m obs = Ok t ∧
    shape4 t = (1, map_channels lib m,
                shape1 (raw_map obs m), shape2 (raw_map obs m)) ∧
    wf4 t ∧
    map_channels lib m = sum_list (channels_of <$> catalog_of lib m).
Proof.
  intros Hwf Hshape Hne.
  assert (Hcount : map_channels lib m
                   = sum_list (channels_of <$> catalog_of lib m)).
  { destruct m; apply count_channels_sum. }
  exists (expand_dims0 (encoded (catalog_of lib m) (raw_map obs m))).
  split; [|split; [|split]].
  - rewrite get_map_eq, preprocess_map_eq, preprocess_eq by done. done.
  - unfold expand_dims0, encoded. cbn [shape4 shape0 shape1 shape2].
    by rewrite Hcount.
  - unfold wf4, expand_dims0. cbn [shape4 items4]. split; [done|].
    constructor; [|constructor].
    pose proof (encoded_wf _ _ Hwf Hshape) as Henc.
    by destruct (encoded (catalog_of lib m) (raw_map obs m)).
  - exact Hcount.
Qed.

(** C3: for a scalar layer and a non-negative raw value [v] at a pixel,
    the one output channel of the layer holds [log (v + 1)] at that pixel;
    the value 0 is mapped to 0, and a larger raw value of the layer is
    mapped to a larger or equal output. *)
Theorem scalar_layer_log
    (lib : pysc2) (m : map_type) (screen : ndarray3 Q)
    (i y x : nat) (feature : Feature) (v : Q) :
  wf3 screen →
  shape0 screen = length (catalog_of lib m) →
  catalog_of lib m !! i = Some feature →
  type feature = SCALAR →
  pixel screen i y x = Some v →
  (0 <= v)%Q →
  ∃ out,
    preprocess_map lib m screen = Ok out ∧
    pixel out (channel_offset (catalog_of lib m) i) y x
    = Some (ln (Q2R v + 1)%R) ∧
    ((v == 0)%Q →
     pixel out (channel_offset (catalog_of lib m) i) y x = Some 0%R) ∧
    (∀ y' x' v', pixel screen i y' x' = Some v' → (v <= v')%Q →
       ∃ r r',
         pixel out (channel_offset (catalog_of lib m) i) y x = Some r ∧
         pixel out (channel_offset (catalog_of lib m) i) y' x' = Some r' ∧
         (r <= r')%R).
Proof.
  intros Hwf Hshape Hi Hty Hpx Hv.
  exists (encoded (catalog_of lib m) screen).
  split; [by eapply preprocess_map_encoded|].
  rewrite (encoded_scalar_pixel _ _ i y x feature v) by done.
  split; [done|]. split.
  - intros H0. apply Qeq_eqR in H0. rewrite H0, RMicromega.Q2R_0.
    by rewrite Rplus_0_l, ln_1.
  - intros y' x' v' Hpx' Hle. eexists _, _. split; [done|].
    rewrite (encoded_scalar_pixel _ _ i y' x' feature v') by done.
    split; [done|].
    apply Qle_Rle in Hv, Hle. rewrite RMicromega.Q2R_0 in Hv.
    destruct (Rle_lt_or_eq_dec _ _ Hle) as [Hlt|Heq].
    + left. apply ln_increasing; lra.
    + right. by rewrite Heq.
Qed.

(** ** The catalog assertion *)

Lemma for_each_no_assertion {A S : Type} (body : A → S → result S)
    (l : list A) :
  (∀ x s, body x s ≠ Raise AssertionError) →
  ∀ s, for_each body l s ≠ Raise AssertionError.
Proof.
  intros Hbody. induction l as [|x l IH]; intros s; simpl; [done|].
  destruct (body x s) as [s'|e] eqn:Hx; simpl; [apply IH|].
  intros [= ->]. by apply (Hbody x s).
Qed.

Lemma setitem3_no_assertion {A : Type} (a : ndarray3 A) (j : nat)
    (indy indx : list nat) (v : A) :
  setitem3 a j indy indx v ≠ Raise AssertionError.
Proof. unfold setitem3. by repeat case_match. Qed.

Lemma expand_layer_no_assertion (screen : ndarray3 Q) (i : nat)
    (feature : Feature) :
  expand_layer screen i feature ≠ Raise AssertionError.
Proof.
  unfold expand_layer. apply for_each_no_assertion. intros j layer.
  unfold getitem. destruct (items screen !! i); simpl; [|done].
  apply setitem3_no_assertion.
Qed.

Lemma concatenate_no_assertion {A : Type} (arrays : list (ndarray3 A)) :
  concatenate arrays ≠ Raise AssertionError.
Proof. unfold concatenate. by repeat case_match. Qed.

Lemma preprocess_assertion (catalog : list Feature) (screen : ndarray3 Q) :
  preprocess catalog screen = Raise AssertionError
  ↔ shape0 screen ≠ length catalog.
Proof.
  unfold preprocess, assert.
  destruct (Nat.eqb_spec (shape0 screen) (length catalog)) as [Heq|Hne];
    cbn [mbind result_bind]; [|by split].
  split; [|by intros ?]. intros Hraise. exfalso.
  destruct (for_each _ (enumerate catalog) []) as [layers|e] eqn:Hloop;
    cbn [mbind result_bind] in Hraise.
  - exact (concatenate_no_assertion _ Hraise).
  - injection Hraise as ->. revert Hloop. apply for_each_no_assertion.
    intros [i' feature] layers. destruct (type feature); [done|].
    pose proof (expand_layer_no_assertion screen i' feature) as Hexp.
    destruct (expand_layer screen i' feature) as [layer|e'];
      cbn [mbind result_bind]; [done|].
    intros [= ->]. by apply Hexp.
Qed.

(** C8: [_preprocess_screen] and [_preprocess_minimap] raise
    AssertionError exactly when the first dimension of the input differs
    from the length of the catalog; [get_screen] and [get_minimap] hand the
    failure to their caller unchanged, and in that case the result is the
    AssertionError itself, with no other outcome. *)
Theorem preprocess_assertion_iff
    (lib : pysc2) (m : map_type) (obs : observation) :
  (preprocess_map lib m (raw_map obs m) = Raise AssertionError
   ↔ shape0 (raw_map obs m) ≠ length (catalog_of lib m)) ∧
  (get_map lib m obs = Raise AssertionError
   ↔ shape0 (raw_map obs m) ≠ length (catalog_of lib m)) ∧
  (∀ e, preprocess_map lib m (raw_map obs m) = Raise e →
        get_map lib m obs = Raise e).
Proof.
  rewrite get_map_eq, preprocess_map_eq.
  split; [apply preprocess_assertion|]. split.
  - rewrite <- preprocess_assertion.
    destruct (preprocess (catalog_of lib m) (raw_map obs m)) as [a|e];
      cbn [mbind result_bind]; split; intros Heq; try discriminate;
      by injection Heq as ->.
  - by intros e ->.
Qed.

Lemma category_unique (v : Q) (j j' : nat) :
  Qeq_bool v (inject_Z (Z.of_nat j)) = true →
  Qeq_bool v (inject_Z (Z.of_nat j')) = true →
  j = j'.
Proof.
  intros Hj%Qeq_bool_iff Hj'%Qeq_bool_iff. rewrite Hj in Hj'.
  apply (proj1 (inject_Z_injective _ _)) in Hj'. lia.
Qed.

(** At a pixel of a categorical layer where the array handed to
    [preprocess] holds no integer of [0, scale), every expanded channel is
    0; at every pixel of the layer the expanded channels sum to 0 or 1. *)
Lemma categorical_expansion_zero
    (lib : pysc2) (m : map_type) (screen : ndarray3 Q)
    (i y x : nat) (feature : Feature) (v : Q) :
  wf3 screen →
  shape0 screen = length (catalog_of lib m) →
  catalog_of lib m !! i = Some feature →
  type feature = CATEGORICAL →
  pixel screen i y x = Some v →
  (∀ j, j < scale feature → ¬ (v == inject_Z (Z.of_nat j))%Q) →
  ∃ out,
    preprocess_map lib m screen = Ok out ∧
    (∀ j, j < scale feature →
       pixel out (channel_offset (catalog_of lib m) i + j) y x = Some 0%R) ∧
    Rsum (column out (channel_offset (catalog_of lib m) i)
                 (scale feature) y x) = 0%R ∧
    (∀ y' x' v', pixel screen i y' x' = Some v' →
       (0 <= Rsum (column out (channel_offset (catalog_of lib m) i)
                          (scale feature) y' x') <= 1)%R).
Proof.
  intros Hwf Hshape Hi Hty Hpx Hout.
  exists (encoded (catalog_of lib m) screen).
  split; [by eapply preprocess_map_encoded|].
  assert (Hcol : ∀ y' x' v', pixel screen i y' x' = Some v' →
    column (encoded (catalog_of lib m) screen)
           (channel_offset (catalog_of lib m) i) (scale feature) y' x'
    = (λ j, if Qeq_bool v' (inject_Z (Z.of_nat j)) then 1%R else 0%R)
        <$> seq 0 (scale feature)).
  { intros y' x' v' Hpx'. apply column_eq. intros j Hj.
    by rewrite (encoded_categorical_pixel _ _ i y' x' feature v'). }
  assert (Hnone : ∀ j, j < scale feature →
    Qeq_bool v (inject_Z (Z.of_nat j)) = false).
  { intros j Hj. apply not_true_is_false. intros Heq%Qeq_bool_iff.
    by apply (Hout j Hj). }
  split; [|split].
  - intros j Hj.
    rewrite (encoded_categorical_pixel _ _ i y x feature v) by done.
    by rewrite Hnone.
  - rewrite (Hcol y x v Hpx).
    rewrite (Rsum_indicators (λ j, Qeq_bool v (inject_Z (Z.of_nat j))))
      by apply category_unique.
    assert (existsb (λ j, Qeq_bool v (inject_Z (Z.of_nat j)))
                    (seq 0 (scale feature)) = false) as ->; [|done].
    apply not_true_is_false. intros (j & Hj & Heq)%existsb_exists.
    apply in_seq in Hj. rewrite Hnone in Heq by lia. done.
  - intros y' x' v' Hpx'. rewrite (Hcol y' x' v' Hpx').
    rewrite (Rsum_indicators (λ j, Qeq_bool v' (inject_Z (Z.of_nat j))))
      by apply category_unique.
    destruct (existsb _ _); lra.
Qed.

(** ** The properties on the small instance *)

Lemma demo_raw_wf : wf3 Demo.raw.
Proof. split; [done|]. repeat constructor. Qed.

Example demo_preprocess_screen :
  _preprocess_screen Demo.lib Demo.raw
  = Ok (Nd3 4 1 2 [ [[ln (Q2R 0 + 1); ln (Q2R 3 + 1)]];
                    [[0; 0]]; [[0; 0]]; [[1; 0]] ]%R).
Proof. reflexivity. Qed.

Example demo_preprocess_missing_layer :
  _preprocess_screen Demo.lib (Nd3 1 1 2 [ [[0%Q; 3%Q]] ])
  = Raise AssertionError.
Proof. reflexivity. Qed.

Example demo_init :
  __init__ Demo.lib "dev" = Ok Demo.handler.
Proof. reflexivity. Qed.

Example demo_is_nonspatial_action :
  is_nonspatial_action Demo.handler 0 = Raise TypeError.
Proof. reflexivity. Qed.

Example demo_postprocess_action :
  postprocess_action Demo.lib Demo.handler [[2%Z]] [[21%Z]]
  = Ok {| function := 2;
          arguments := [[0%Z]; [5%Z; 2%Z]; [5%Z; 2%Z]] |}.
Proof. reflexivity. Qed.

Example demo_available_actions :
  get_info Demo.handler Demo.obs = Ok [1%Q; 0%Q; 1%Q].
Proof. reflexivity. Qed.

Example demo_one_hot :
  one_hot Demo.indices 3 Demo.float64
  = Ok (Axis [Axis [Axis [Item 1%Q; Item 0%Q; Item 0%Q];
                    Axis [Item 0%Q; Item 0%Q; Item 1%Q]];
              Axis [Axis [Item 0%Q; Item 1%Q; Item 0%Q];
                    Axis [Item 0%Q; Item 1%Q; Item 0%Q]]]).
Proof. reflexivity. Qed.

Lemma categorical_expansion_one_hot_witness :
  ∃ out,
    preprocess_map Demo.lib Screen Demo.raw = Ok out ∧
    (∀ j, j < 3 →
       pixel out (channel_offset Demo.catalog 1 + j) 0 0
       = Some (if bool_decide (j = 2) then 1%R else 0%R)) ∧
    (∀ j, j < 3 →
       (pixel out (channel_offset Demo.catalog 1 + j) 0 0 = Some 1%R ↔ j = 2) ∧
       (pixel out (channel_offset Demo.catalog 1 + j) 0 0 = Some 0%R ↔ j ≠ 2)) ∧
    argmax (column out (channel_offset Demo.catalog 1) 3 0 0) = 2.
Proof.
  apply (categorical_expansion_one_hot Demo.lib Screen Demo.raw 1 0 0 2
           {| type := CATEGORICAL; scale := 3 |} 2%Q).
  - exact demo_raw_wf.
  - reflexivity.
  - reflexivity.
  - reflexivity.
  - reflexivity.
  - reflexivity.
  - simpl. lia.
Defined.

Lemma get_map_shape_witness :
  ∃ t,
    get_map Demo.lib Screen Demo.obs = Ok t ∧
    shape4 t = (1, map_channels Demo.lib Screen, 1, 2) ∧
    wf4 t ∧
    map_channels Demo.lib Screen = 4.
Proof.
  apply (get_map_shape Demo.lib Screen Demo.obs).
  - exact demo_raw_wf.
  - reflexivity.
  - discriminate.
Defined.

Lemma scalar_layer_log_witness :
  ∃ out,
    preprocess_map Demo.lib Minimap Demo.raw = Ok out ∧
    pixel out (channel_offset Demo.catalog 0) 0 1 = Some (ln (Q2R 3 + 1)%R) ∧
    ((3 == 0)%Q →
     pixel out (channel_offset Demo.catalog 0) 0 1 = Some 0%R) ∧
    (∀ y' x' v', pixel Demo.raw 0 y' x' = Some v' → (3 <= v')%Q →
       ∃ r r',
         pixel out (channel_offset Demo.catalog 0) 0 1 = Some r ∧
         pixel out (channel_offset Demo.catalog 0) y' x' = Some r' ∧
         (r <= r')%R).
Proof.
  apply (scalar_layer_log Demo.lib Minimap Demo.raw 0 0 1
           {| type := SCALAR; scale := 256 |} 3%Q).
  - exact demo_raw_wf.
  - reflexivity.
  - reflexivity.
  - reflexivity.
  - reflexivity.
  - discriminate.
Defined.

Lemma postprocess_action_decodes_flat_index_witness :
  target_point Demo.handler 21 = [5%Z; 2%Z] ∧
  (0 ≤ 21 mod 8 < 8)%Z ∧ (0 ≤ 21 / 8 < 8)%Z ∧
  (∃ call, postprocess_action Demo.lib Demo.handler [[2%Z]] [[21%Z]] = Ok call ∧
     ∀ k arg, args Demo.select_rect !! k = Some arg → is_spatial arg = true →
       arguments call !! k = Some [5%Z; 2%Z]) ∧
  target_point Demo.handler 0 = [0%Z; 0%Z] ∧
  target_point Demo.handler 8 = [0%Z; 1%Z] ∧
  target_point Demo.handler (8 * 8 - 1) = [7%Z; 7%Z].
Proof.
  apply (postprocess_action_decodes_flat_index Demo.lib Demo.handler 2 21 8
           Demo.select_rect).
  - reflexivity.
  - lia.
  - lia.
  - reflexivity.
Defined.

Lemma preprocess_available_actions_mask_witness :
  ∃ v,
    _preprocess_available_actions Demo.handler [0%Z; 2%Z; 2%Z] = Ok v ∧
    length v = 3 ∧
    (∀ i, i < 3 →
       v !! i = Some (if bool_decide (Z.of_nat i ∈ [0%Z; 2%Z; 2%Z])
                      then 1%Q else 0%Q)) ∧
    (∀ S', (∀ k, k ∈ [0%Z; 2%Z; 2%Z] ↔ k ∈ S') →
       _preprocess_available_actions Demo.handler S' = Ok v) ∧
    (∀ k, k ∈ [0%Z; 2%Z; 2%Z] →
       _preprocess_available_actions Demo.handler (k :: [0%Z; 2%Z; 2%Z])
       = Ok v) ∧
    ([0%Z; 2%Z; 2%Z] = [] → v = replicate 3 0%Q).
Proof.
  apply (preprocess_available_actions_mask Demo.handler [0%Z; 2%Z; 2%Z]).
  repeat constructor; simpl; lia.
Defined.

Lemma postprocess_action_assembles_arguments_witness :
  ∃ call,
    postprocess_action Demo.lib Demo.handler [[2%Z]] [[21%Z]] = Ok call ∧
    function call = 2%Z ∧
    length (arguments call) = 3 ∧
    (∀ k arg, args Demo.select_rect !! k = Some arg →
       (name arg = "screen" ∨ name arg = "minimap" ∨ name arg = "screen2" →
        arguments call !! k = Some (target_point Demo.handler 21)) ∧
       (name arg ≠ "screen" → name arg ≠ "minimap" → name arg ≠ "screen2" →
        arguments call !! k = Some [0%Z])) ∧
    (length (args Demo.select_rect) = 3 →
     length (filter (λ arg, name arg = "screen" ∨ name arg = "minimap"
                            ∨ name arg = "screen2")
                    (args Demo.select_rect)) = 2 →
     length (arguments call) = 3 ∧
     length (filter (λ v, v = target_point Demo.handler 21) (arguments call)) = 2 ∧
     length (filter (λ v, v = [0%Z]) (arguments call)) = 1).
Proof.
  apply (postprocess_action_assembles_arguments Demo.lib Demo.handler 2 21
           Demo.select_rect).
  reflexivity.
Defined.

Lemma one_hot_indicator_vectors_witness :
  ∃ out,
    one_hot Demo.indices 3 Demo.float64 = Ok out ∧
    has_shape out [2; 2; 3] = true ∧
    ∀ path q, nd_get Demo.indices path = Some q →
      ∀ c, c < 3 →
        nd_get out (path ++ [c])
        = Some (if (Z.of_nat c =? Qfloor q)%Z then 1%Q else 0%Q).
Proof.
  apply (one_hot_indicator_vectors Demo.float64 Demo.indices 3 [2; 2]).
  - lia.
  - reflexivity.
  - reflexivity.
Defined.

(** * Further properties of the adapter *)

Import Terms.

(** ** Decoding the spatial target *)

Lemma target_point_pos (self : GameInterfaceHandler) (R f : Z) :
  screen_resolution self = R →
  (0 < R)%Z →
  target_point self f = [(f mod R)%Z; (f / R)%Z].
Proof.
  intros HR Hpos. unfold target_point, np_mod, np_floordiv.
  by rewrite HR, (proj2 (Z.eqb_neq R 0)) by lia.
Qed.

(** X1: decoding inverts the row-major flattening: the index
    [y * R + x] with [0 <= x < R] is decoded to [(x, y)], and an index that
    is decoded to [(x, y)] is [y * R + x]. *)
Theorem target_point_round_trip
    (self : GameInterfaceHandler) (R x y f : Z) :
  screen_resolution self = R →
  (0 < R)%Z →
  ((0 ≤ x < R)%Z → target_point self (flat_index R x y) = [x; y]) ∧
  (target_point self f = [x; y] → f = flat_index R x y ∧ (0 ≤ x < R)%Z).
Proof.
  intros HR Hpos. rewrite !(target_point_pos self R) by done.
  unfold flat_index. split.
  - intros Hx. rewrite Z.add_comm, Z.mod_add, Z.div_add by lia.
    by rewrite Z.mod_small, Z.div_small by lia.
  - intros [= <- <-]. split; [|apply Z.mod_pos_bound; lia].
    rewrite (Z.div_mod f R) at 1 by lia. lia.
Qed.

(** X2: the decoder checks no range: the column always lies in [0, R),
    and the row lies in [0, R) exactly when the flat index lies in
    [0, R * R). *)
Theorem target_point_in_grid_iff
    (self : GameInterfaceHandler) (R f : Z) :
  screen_resolution self = R →
  (0 < R)%Z →
  ∃ x y,
    target_point self f = [x; y] ∧
    (0 ≤ x < R)%Z ∧
    ((0 ≤ y < R)%Z ↔ (0 ≤ f < R * R)%Z).
Proof.
  intros HR Hpos. exists (f mod R)%Z, (f / R)%Z.
  split; [by apply target_point_pos|].
  split; [apply Z.mod_pos_bound; lia|].
  pose proof (Z.div_mod f R ltac:(lia)) as Hdm.
  pose proof (Z.mod_pos_bound f R Hpos) as Hmod.
  split.
  - intros Hy. nia.
  - intros Hf. split; [apply Z.div_pos; lia|].
    apply Z.div_lt_upper_bound; lia.
Qed.

(** ** Failures of the decoder *)

Lemma py_getitem_cases {A : Type} (l : list A) (i : Z) :
  (in_bounds (Z.of_nat (length l)) i = true ∧
   ∃ x, py_getitem l i = Ok x ∧
        l !! Z.to_nat (wrap (Z.of_nat (length l)) i) = Some x) ∨
  (in_bounds (Z.of_nat (length l)) i = false ∧
   py_getitem l i = Raise IndexError).
Proof.
  unfold py_getitem, in_bounds, wrap.
  set (n := Z.of_nat (length l)).
  destruct (Z.ltb_spec i 0) as [Hneg|Hpos];
    destruct (Z.leb_spec (- n) i), (Z.ltb_spec i n);
    destruct (Z.leb_spec 0 (i + n)), (Z.ltb_spec (i + n) n);
    destruct (Z.leb_spec 0 i);
    cbn [andb]; try lia; try (right; done).
  - left. split; [done|].
    destruct (l !! Z.to_nat (i + n)) as [x|] eqn:Hx; [by exists x|].
    apply lookup_ge_None in Hx. lia.
  - left. split; [done|].
    destruct (l !! Z.to_nat i) as [x|] eqn:Hx; [by exists x|].
    apply lookup_ge_None in Hx. lia.
Qed.

(** X3: for inputs of shape (1, 1), [postprocess_action] raises IndexError
    exactly when the action identifier lies outside [-n, n) for a
    vocabulary of [n] actions, and raises nothing else; an empty action or
    target array raises IndexError as well. *)
Theorem postprocess_action_failures
    (lib : pysc2) (self : GameInterfaceHandler) (act_id target : Z) :
  (postprocess_action lib self [[act_id]] [[target]] = Raise IndexError
   ↔ in_bounds (Z.of_nat (length (FUNCTIONS lib))) act_id = false) ∧
  (∀ e, postprocess_action lib self [[act_id]] [[target]] = Raise e →
        e = IndexError) ∧
  postprocess_action lib self [] [[target]] = Raise IndexError ∧
  postprocess_action lib self [[]] [[target]] = Raise IndexError ∧
  postprocess_action lib self [[act_id]] [] = Raise IndexError ∧
  postprocess_action lib self [[act_id]] [[]] = Raise IndexError.
Proof.
  assert (Hrun : postprocess_action lib self [[act_id]] [[target]]
    = (func ← py_getitem (FUNCTIONS lib) act_id;
       Ok {| function := act_id;
             arguments := slot_value self target <$> args func |})).
  { unfold postprocess_action. rewrite !py_getitem_singleton. simpl.
    destruct (py_getitem (FUNCTIONS lib) act_id) as [func|e]; simpl; [|done].
    by rewrite act_args_loop. }
  rewrite Hrun.
  destruct (py_getitem_cases (FUNCTIONS lib) act_id)
    as [[Hin (func & -> & _)]|[Hout ->]]; cbn [mbind result_bind].
  - rewrite Hin. repeat split; done.
  - rewrite Hout. repeat split; try done. by intros e [= <-].
Qed.

(** ** Construction of the handler *)

(** X4: [GameInterfaceHandler(mode)] raises AssertionError for every mode
    other than ['dev'] and ['test']; for these two it returns a handler
    whose action count is the size of the vocabulary, whose screen and
    minimap resolutions are both the ['resl'] entry of the profile, and
    whose table has one flag per action, true exactly for the actions
    without a spatial slot. *)
Theorem init_outcomes (lib : pysc2) (mode : string) :
  __init__ lib mode
  = (if bool_decide (mode = "dev" ∨ mode = "test")
     then Ok (built_handler lib mode)
     else Raise AssertionError) ∧
  length (non_spatial_actions (built_handler lib mode))
  = num_action (built_handler lib mode) ∧
  screen_resolution (built_handler lib mode)
  = minimap_resolution (built_handler lib mode) ∧
  (∀ i func, FUNCTIONS lib !! i = Some func →
     non_spatial_actions (built_handler lib mode) !! i
     = Some (negb (existsb (λ arg, is_spatial_name (name arg)) (args func)))).
Proof.
  split; [|split; [|split]].
  - unfold __init__, assert.
    assert (Hmode : bool_decide (mode ∈ ["dev"; "test"]%string)
                    = bool_decide (mode = "dev" ∨ mode = "test")).
    { apply bool_decide_ext. rewrite !elem_of_cons, elem_of_nil. tauto. }
    rewrite Hmode. clear Hmode.
    destruct (bool_decide (mode = "dev" ∨ mode = "test"));
      cbn [mbind result_bind]; [|done].
    by rewrite get_nonspatial_actions_eq.
  - unfold built_handler. cbn [non_spatial_actions num_action].
    by rewrite length_fmap.
  - done.
  - intros i func Hi. unfold built_handler. cbn [non_spatial_actions].
    by rewrite list_lookup_fmap, Hi.
Qed.

(** ** The table and the decoder together *)

Lemma slot_values_nonspatial (self : GameInterfaceHandler) (target : Z)
    (slots : list ArgumentType) :
  existsb is_spatial slots = false →
  slot_value self target <$> slots = replicate (length slots) [0%Z].
Proof.
  induction slots as [|arg slots IH]; [done|]. cbn [existsb].
  intros [Harg Hrest]%orb_false_iff.
  cbn [fmap list_fmap length replicate]. unfold slot_value at 1.
  rewrite Harg. f_equal. by apply IH.
Qed.

Lemma slot_values_spatial (self : GameInterfaceHandler) (target : Z)
    (slots : list ArgumentType) :
  existsb is_spatial slots = true →
  target_point self target ∈ slot_value self target <$> slots.
Proof.
  induction slots as [|arg slots IH]; [done|]. cbn [existsb].
  rewrite fmap_cons. intros [Harg|Hrest]%orb_true_iff.
  - unfold slot_value at 1. rewrite Harg. apply list_elem_of_here.
  - apply list_elem_of_further. by apply IH.
Qed.

(** X5: for a handler built by the constructor and an action identifier
    [0 <= act_id < n], the flag of the table decides what the decoder does
    with the spatial target: when the flag is true every argument of the
    call is [[0]] and the call does not depend on the target, and when it
    is false the decoded point occurs among the arguments. *)
Theorem nonspatial_flag_and_decoder
    (lib : pysc2) (mode : string) (self : GameInterfaceHandler)
    (act_id : Z) (func : Function) :
  __init__ lib mode = Ok self →
  (0 ≤ act_id)%Z →
  FUNCTIONS lib !! Z.to_nat act_id = Some func →
  ∃ flag,
    non_spatial_actions self !! Z.to_nat act_id = Some flag ∧
    (flag = true →
     ∀ target,
       postprocess_action lib self [[act_id]] [[target]]
       = Ok {| function := act_id;
               arguments := replicate (length (args func)) [0%Z] |}) ∧
    (flag = false →
     ∀ target, ∃ call,
       postprocess_action lib self [[act_id]] [[target]] = Ok call ∧
       target_point self target ∈ arguments call).
Proof.
  intros Hinit Hpos Hfunc.
  destruct (init_non_spatial_actions lib mode self Hinit) as [_ Htable].
  assert (Hget : py_getitem (FUNCTIONS lib) act_id = Ok func).
  { destruct (py_getitem_cases (FUNCTIONS lib) act_id)
      as [[Hin (f & Hf & Hlk)]|[Hout _]].
    - unfold wrap in Hlk. rewrite (proj2 (Z.ltb_ge act_id 0)) in Hlk by lia.
      congruence.
    - apply lookup_lt_Some in Hfunc. unfold in_bounds in Hout.
      apply andb_false_iff in Hout as [Hout%Z.leb_gt|Hout%Z.ltb_ge]; lia. }
  exists (no_spatial_slot func). split; [|split].
  - by rewrite Htable, list_lookup_fmap, Hfunc.
  - unfold no_spatial_slot. intros Hflag%negb_true_iff target.
    rewrite (postprocess_action_eq lib self act_id target func Hget).
    by rewrite slot_values_nonspatial.
  - unfold no_spatial_slot. intros Hflag%negb_false_iff target.
    eexists. split; [by apply postprocess_action_eq|].
    cbn [arguments]. by apply slot_values_spatial.
Qed.

(** ** The availability mask on arbitrary identifiers *)

Lemma wrap_in_bounds (n k : Z) :
  in_bounds n k = true → (0 ≤ wrap n k < n)%Z.
Proof.
  unfold in_bounds, wrap. intros [H1%Z.leb_le H2%Z.ltb_lt]%andb_true_iff.
  destruct (Z.ltb_spec k 0); lia.
Qed.

Lemma mark_loop_wrap (n : Z) (idx : list Z) :
  Forall (λ k, in_bounds n k = true) idx →
  ∀ a : list Q,
    foldl (λ acc k, <[Z.to_nat (if (k <? 0)%Z then k + n else k)%Z := 1%Q]> acc)
          a idx
    = foldl (λ acc k, <[Z.to_nat (if (k <? 0)%Z then k + n else k)%Z := 1%Q]> acc)
            a (wrap n <$> idx).
Proof.
  induction 1 as [|k idx Hk _ IH]; intros a; [done|].
  rewrite fmap_cons. cbn [foldl]. rewrite <- IH. f_equal.
  apply wrap_in_bounds in Hk.
  rewrite (proj2 (Z.ltb_ge (wrap n k) 0)) by lia. done.
Qed.

Lemma mask_lookup_general (self : GameInterfaceHandler) (S : list Z) :
  forallb (in_bounds (Z.of_nat (num_action self))) S = true →
  ∃ v,
    _preprocess_available_actions self S = Ok v ∧
    length v = num_action self ∧
    ∀ i, v !! i
         = if bool_decide (i < num_action self)
           then Some (if bool_decide
                           (Z.of_nat i ∈ wrap (Z.of_nat (num_action self)) <$> S)
                      then 1%Q else 0%Q)
           else None.
Proof.
  intros Hall. unfold _preprocess_available_actions, setitem1.
  rewrite length_replicate.
  change (forallb (λ i, (- Z.of_nat (num_action self) <=? i)%Z
                        && (i <? Z.of_nat (num_action self))%Z) S)
    with (forallb (in_bounds (Z.of_nat (num_action self))) S).
  rewrite Hall. eexists. split; [done|].
  apply forallb_Forall in Hall.
  rewrite (mark_loop_wrap _ _ Hall). split.
  - by rewrite mark_loop_length, length_replicate.
  - intros i. rewrite mark_loop_lookup.
    2:{ apply Forall_fmap. eapply Forall_impl; [exact Hall|].
        intros k Hk. simpl. apply wrap_in_bounds in Hk. lia. }
    destruct (decide (i < num_action self)) as [Hi|Hi].
    + rewrite (bool_decide_eq_true_2 (i < _)) by done.
      rewrite lookup_replicate_2 by done. by case_bool_decide.
    + rewrite (bool_decide_eq_false_2 (i < _)) by done.
      assert (replicate (num_action self) 0%Q !! i = None) as ->.
      { apply lookup_replicate_None. lia. }
      by case_bool_decide.
Qed.

(** The mask builder of the model on any sequence of integers. *)
Lemma available_actions_cases
    (self : GameInterfaceHandler) (S : list Z) :
  match _preprocess_available_actions self S with
  | Ok v =>
      forallb (in_bounds (Z.of_nat (num_action self))) S = true ∧
      length v = num_action self ∧
      ∀ i, i < num_action self →
        v !! i
        = Some (if bool_decide
                     (Z.of_nat i ∈ S ∨
                      (Z.of_nat i - Z.of_nat (num_action self))%Z ∈ S)
                then 1%Q else 0%Q)
  | Raise e =>
      e = IndexError ∧
      forallb (in_bounds (Z.of_nat (num_action self))) S = false
  end.
Proof.
  destruct (forallb (in_bounds (Z.of_nat (num_action self))) S) eqn:Hall.
  - destruct (mask_lookup_general self S Hall) as (v & -> & Hlen & Hlk).
    split; [done|]. split; [done|]. intros i Hi.
    rewrite Hlk, (bool_decide_eq_true_2 (i < _)) by done. f_equal.
    apply (f_equal (λ b : bool, if b then _ else _)).
    apply bool_decide_ext. rewrite list_elem_of_fmap.
    apply forallb_Forall in Hall. rewrite Forall_forall in Hall.
    split.
    + intros (k & Hk & HkS). pose proof (Hall k HkS) as Hb.
      apply wrap_in_bounds in Hb. unfold wrap in Hk, Hb.
      destruct (Z.ltb_spec k 0).
      * right. by replace (Z.of_nat i - Z.of_nat (num_action self))%Z
          with k by lia.
      * left. by subst.
    + intros [HS|HS].
      * exists (Z.of_nat i). split; [|done]. unfold wrap.
        by rewrite (proj2 (Z.ltb_ge _ 0)) by lia.
      * eexists. split; [|exact HS]. unfold wrap.
        rewrite (proj2 (Z.ltb_lt _ 0)) by lia. lia.
  - unfold _preprocess_available_actions, setitem1.
    rewrite length_replicate.
    change (forallb (λ i, (- Z.of_nat (num_action self) <=? i)%Z
                          && (i <? Z.of_nat (num_action self))%Z) S)
      with (forallb (in_bounds (Z.of_nat (num_action self))) S).
    by rewrite Hall.
Qed.

Lemma mask_entry_one (P : Prop) `{!Decision P} :
  Some (if bool_decide P then 1%Q else 0%Q) = Some 1%Q ↔ P.
Proof. case_bool_decide; split; (done || by intros [=]). Qed.

(** X7: the mask of a concatenation is the union of the masks: when the
    builder accepts [S ++ T] it accepts [S], [T] and [T ++ S], a position
    holds 1 for [S ++ T] exactly when it holds 1 for [S] or for [T], and
    [T ++ S] gives the same mask. *)
Theorem available_actions_union
    (self : GameInterfaceHandler) (S T : list Z) (v : list Q) :
  _preprocess_available_actions self (S ++ T) = Ok v →
  ∃ vS vT,
    _preprocess_available_actions self S = Ok vS ∧
    _preprocess_available_actions self T = Ok vT ∧
    (∀ i, v !! i = Some 1%Q ↔ vS !! i = Some 1%Q ∨ vT !! i = Some 1%Q) ∧
    _preprocess_available_actions self (T ++ S) = Ok v.
Proof.
  intros Hv.
  pose proof (available_actions_cases self (S ++ T)) as Hall.
  rewrite Hv in Hall. destruct Hall as [Hall _].
  rewrite forallb_app in Hall. apply andb_true_iff in Hall as [HS HT].
  destruct (mask_lookup_general self S HS) as (vS & HvS & _ & HlkS).
  destruct (mask_lookup_general self T HT) as (vT & HvT & _ & HlkT).
  destruct (mask_lookup_general self (S ++ T)) as (v' & Hv' & _ & Hlk).
  { by rewrite forallb_app, HS, HT. }
  destruct (mask_lookup_general self (T ++ S)) as (w & Hw & _ & Hlkw).
  { by rewrite forallb_app, HS, HT. }
  rewrite Hv in Hv'. injection Hv' as <-.
  exists vS, vT. split; [done|]. split; [done|]. split.
  - intros i. rewrite Hlk, HlkS, HlkT. rewrite fmap_app.
    destruct (bool_decide (i < num_action self));
      [|split; [done | by intros [?|?]]].
    rewrite !mask_entry_one. apply elem_of_app.
  - rewrite Hw. f_equal. apply list_eq. intros i. rewrite Hlk, Hlkw.
    destruct (bool_decide (i < num_action self)); [|done]. f_equal.
    apply (f_equal (λ b : bool, if b then _ else _)).
    apply bool_decide_ext. rewrite !fmap_app, !elem_of_app. tauto.
Qed.

(** ** Outcomes and layout of the encoded map *)

(** X8: on a well-formed raw map the preprocessing has three outcomes:
    AssertionError when the layer count differs from the catalog length,
    ValueError when both are zero (nothing to concatenate), and otherwise
    an array of [map_channels] channels with the height and width of the
    input, whose entries fill that shape. *)
Theorem preprocess_outcomes
    (lib : pysc2) (m : map_type) (screen : ndarray3 Q) :
  wf3 screen →
  match preprocess_map lib m screen with
  | Ok out =>
      shape0 screen = length (catalog_of lib m) ∧
      catalog_of lib m ≠ [] ∧
      shape0 out = map_channels lib m ∧
      shape1 out = shape1 screen ∧
      shape2 out = shape2 screen ∧
      wf3 out
  | Raise e =>
      (e = AssertionError ∧ shape0 screen ≠ length (catalog_of lib m)) ∨
      (e = ValueError ∧ shape0 screen = 0 ∧ catalog_of lib m = [])
  end.
Proof.
  intros Hwf. rewrite preprocess_map_eq.
  destruct (decide (shape0 screen = length (catalog_of lib m))) as [Heq|Hne].
  - destruct (catalog_of lib m) as [|feature catalog] eqn:Hcat.
    + unfold preprocess, assert. rewrite Heq. cbn. by right.
    + rewrite preprocess_eq by done.
      split; [done|]. split; [done|]. split.
      * unfold encoded. cbn [shape0]. rewrite <- Hcat.
        destruct m; symmetry; apply count_channels_sum.
      * split; [done|]. split; [done|]. by apply encoded_wf.
  - rewrite (proj2 (preprocess_assertion _ _) Hne). by left.
Qed.

Lemma encoded_pixel_value (catalog : list Feature) (screen : ndarray3 Q)
    (i j y x : nat) (feature : Feature) (v : Q) :
  catalog !! i = Some feature →
  pixel screen i y x = Some v →
  j < channels_of feature →
  pixel (encoded catalog screen) (channel_offset catalog i + j) y x
  = Some (layer_value feature j v).
Proof.
  intros Hi Hpx Hj. unfold layer_value, channels_of in *.
  destruct (type feature) eqn:Hty.
  - replace j with 0 by lia. rewrite Nat.add_0_r.
    by apply (encoded_scalar_pixel catalog screen i y x feature v).
  - by apply (encoded_categorical_pixel catalog screen i y x feature v).
Qed.

Lemma layer_value_proper (feature : Feature) (j : nat) (v v' : Q) :
  (v == v')%Q → layer_value feature j v = layer_value feature j v'.
Proof.
  intros Hv. unfold layer_value. destruct (type feature).
  - by rewrite (Qeq_eqR _ _ Hv).
  - assert (Qeq_bool v (inject_Z (Z.of_nat j))
            = Qeq_bool v' (inject_Z (Z.of_nat j))) as ->; [|done].
    destruct (Qeq_bool v' _) eqn:H'.
    + apply Qeq_bool_iff. apply Qeq_bool_iff in H'. by rewrite Hv.
    + apply not_true_is_false. intros H%Qeq_bool_iff.
      rewrite Hv in H. apply Qeq_bool_iff in H. congruence.
Qed.

(** X9: the encoding is pixelwise: two accepted raw maps that hold equal
    values at one pixel of layer [i] are encoded to arrays that agree, at
    that pixel, on every channel of the block of layer [i], whatever the
    other raw values are. *)
Theorem preprocess_pixelwise
    (lib : pysc2) (m : map_type) (screen screen' : ndarray3 Q)
    (i y x : nat) (feature : Feature) (v v' : Q) :
  wf3 screen →
  wf3 screen' →
  shape0 screen = length (catalog_of lib m) →
  shape0 screen' = length (catalog_of lib m) →
  catalog_of lib m !! i = Some feature →
  pixel screen i y x = Some v →
  pixel screen' i y x = Some v' →
  (v == v')%Q →
  ∃ out out',
    preprocess_map lib m screen = Ok out ∧
    preprocess_map lib m screen' = Ok out' ∧
    ∀ j, j < channels_of feature →
      pixel out (channel_offset (catalog_of lib m) i + j) y x
      = pixel out' (channel_offset (catalog_of lib m) i + j) y x.
Proof.
  intros Hwf Hwf' Hs Hs' Hi Hpx Hpx' Hv.
  exists (encoded (catalog_of lib m) screen),
         (encoded (catalog_of lib m) screen').
  split; [by eapply preprocess_map_encoded|].
  split; [by eapply preprocess_map_encoded|].
  intros j Hj.
  rewrite (encoded_pixel_value _ screen i j y x feature v) by done.
  rewrite (encoded_pixel_value _ screen' i j y x feature v') by done.
  by rewrite (layer_value_proper feature j v v').
Qed.

Lemma channel_decompose (catalog : list Feature) :
  ∀ c, c < sum_list (channels_of <$> catalog) →
    ∃ i feature j,
      catalog !! i = Some feature ∧ j < channels_of feature ∧
      c = channel_offset catalog i + j.
Proof.
  unfold channel_offset.
  induction catalog as [|f0 catalog IH]; intros c Hc; [simpl in Hc; lia|].
  rewrite fmap_cons in Hc.
  change (sum_list (channels_of f0 :: (channels_of <$> catalog)))
    with (channels_of f0 + sum_list (channels_of <$> catalog)) in Hc.
  destruct (decide (c < channels_of f0)) as [Hlt|Hge].
  - exists 0, f0, c. by repeat split.
  - destruct (IH (c - channels_of f0)) as (i & feature & j & Hi & Hj & Hc');
      [lia|].
    exists (S i), feature, j. split; [done|]. split; [done|].
    cbn [take fmap list_fmap].
    change (sum_list (channels_of f0 :: (channels_of <$> take i catalog)))
      with (channels_of f0 + sum_list (channels_of <$> take i catalog)).
    lia.
Qed.

Lemma wf3_pixel {A : Type} (a : ndarray3 A) (c y x : nat) :
  wf3 a → c < shape0 a → y < shape1 a → x < shape2 a →
  ∃ v, pixel a c y x = Some v.
Proof.
  intros [Hlen Hplanes] Hc Hy Hx. unfold pixel.
  destruct (items a !! c) as [plane|] eqn:Hplane.
  2:{ apply lookup_ge_None in Hplane. lia. }
  destruct (Forall_lookup_1 _ _ _ _ Hplanes Hplane) as [Hrows Hcols].
  cbn [mbind option_bind].
  destruct (plane !! y) as [row|] eqn:Hrow.
  2:{ apply lookup_ge_None in Hrow. lia. }
  pose proof (Forall_lookup_1 _ _ _ _ Hcols Hrow) as Hw. simpl in Hw.
  cbn [mbind option_bind].
  destruct (row !! x) as [v|] eqn:Hv; [by exists v|].
  apply lookup_ge_None in Hv. lia.
Qed.

Lemma channel_offset_step (catalog : list Feature) (i : nat)
    (feature : Feature) :
  catalog !! i = Some feature →
  channel_offset catalog (S i)
  = channel_offset catalog i + channels_of feature.
Proof.
  intros Hi. unfold channel_offset.
  rewrite (take_S_r _ _ _ Hi), fmap_app, sum_list_with_app. simpl. lia.
Qed.

Lemma channel_offset_mono (catalog : list Feature) (i d : nat) :
  channel_offset catalog i ≤ channel_offset catalog (i + d).
Proof.
  induction d as [|d IH]; [by rewrite Nat.add_0_r|].
  rewrite Nat.add_succ_r.
  destruct (catalog !! (i + d)) as [feature|] eqn:Hi.
  - rewrite (channel_offset_step _ _ _ Hi). lia.
  - apply lookup_ge_None in Hi. unfold channel_offset in *.
    rewrite (take_ge catalog (S (i + d))) by lia.
    by rewrite (take_ge catalog (i + d)) in IH by lia.
Qed.

Lemma channel_offset_unique (catalog : list Feature)
    (i i' j j' : nat) (feature feature' : Feature) :
  catalog !! i = Some feature → j < channels_of feature →
  catalog !! i' = Some feature' → j' < channels_of feature' →
  channel_offset catalog i + j = channel_offset catalog i' + j' →
  i = i' ∧ j = j'.
Proof.
  intros Hi Hj Hi' Hj' Heq.
  pose proof (channel_offset_step _ _ _ Hi) as Hstep.
  pose proof (channel_offset_step _ _ _ Hi') as Hstep'.
  destruct (Nat.lt_trichotomy i i') as [Hlt|[->|Hgt]].
  - pose proof (channel_offset_mono catalog (S i) (i' - S i)) as Hm.
    replace (S i + (i' - S i)) with i' in Hm by lia. lia.
  - split; [done|lia].
  - pose proof (channel_offset_mono catalog (S i') (i - S i')) as Hm.
    replace (S i' + (i - S i')) with i in Hm by lia. lia.
Qed.

(** Every channel of the encoded array belongs to the block of exactly
    one catalog layer, and its entries are computed pixel by pixel. *)
Lemma encoded_entry_cases
    (lib : pysc2) (m : map_type) (screen : ndarray3 Q) (c y x : nat) :
  wf3 screen →
  shape0 screen = length (catalog_of lib m) →
  c < map_channels lib m →
  y < shape1 screen →
  x < shape2 screen →
  ∃ out i feature j v,
    preprocess_map lib m screen = Ok out ∧
    catalog_of lib m !! i = Some feature ∧
    j < channels_of feature ∧
    c = channel_offset (catalog_of lib m) i + j ∧
    (∀ i' feature' j',
       catalog_of lib m !! i' = Some feature' →
       j' < channels_of feature' →
       c = channel_offset (catalog_of lib m) i' + j' →
       i' = i ∧ j' = j) ∧
    pixel screen i y x = Some v ∧
    pixel out c y x
    = Some (match type feature with
            | SCALAR => ln (Q2R v + 1)%R
            | CATEGORICAL =>
                if Qeq_bool v (inject_Z (Z.of_nat j)) then 1%R else 0%R
            end).
Proof.
  intros Hwf Hshape Hc Hy Hx.
  assert (Hc' : c < sum_list (channels_of <$> catalog_of lib m)).
  { destruct m; unfold map_channels, screen_channels, minimap_channels in Hc;
      by rewrite count_channels_sum in Hc. }
  destruct (channel_decompose _ c Hc') as (i & feature & j & Hi & Hj & ->).
  assert (Hlayer : i < shape0 screen).
  { rewrite Hshape. by eapply lookup_lt_Some. }
  destruct (wf3_pixel screen i y x Hwf Hlayer Hy Hx) as [v Hv].
  exists (encoded (catalog_of lib m) screen), i, feature, j, v.
  split; [by eapply preprocess_map_encoded|].
  repeat (split; [done|]). split.
  - intros i' feature' j' Hi' Hj' Heq.
    by apply (channel_offset_unique (catalog_of lib m) i' i j' j
                feature' feature).
  - split; [done|].
    by rewrite (encoded_pixel_value _ screen i j y x feature v).
Qed.

(** ** One-hot encoding of arbitrary indices *)

Section OneHotGeneral.
Context {A : Type}.
Variable dt : dtype A.
Variable n : nat.

Let table : list (list A) :=
  (λ r, (λ c, if r =? c then one dt else zero dt) <$> seq 0 n) <$> seq 0 n.

Let accepted (q : Q) : bool := in_bounds (Z.of_nat n) (to_int q).

Let vector (q : Q) : list A :=
  (λ c, if (Z.of_nat c =? wrap (Z.of_nat n) (to_int q))%Z
        then one dt else zero dt) <$> seq 0 n.

(** What the result for the index array [b] has to satisfy. *)
Let described (b : ndarray Q) (out : ndarray A) : Prop :=
  (∀ s, has_shape b s = true → has_shape out (s ++ [n]) = true) ∧
  ∀ path q, nd_get b path = Some q →
    ∀ c, c < n → nd_get out (path ++ [c]) = vector q !! c.

Lemma take_row_cases (q : Q) :
  take_row table (to_int q)
  = if accepted q then Ok (vector q) else Raise IndexError.
Proof.
  unfold take_row, accepted, in_bounds, vector, wrap.
  assert (Hlen : length table = n).
  { unfold table. by rewrite length_fmap, length_seq. }
  rewrite Hlen. set (k := to_int q). set (N := Z.of_nat n).
  assert (Hrow : ∀ k', (0 ≤ k' < N)%Z →
    table !! Z.to_nat k'
    = Some ((λ c, if (Z.of_nat c =? k')%Z then one dt else zero dt)
              <$> seq 0 n)).
  { intros k' Hk'. unfold table.
    rewrite list_lookup_fmap, lookup_seq_lt by lia. cbn [fmap option_fmap option_map Nat.add].
    f_equal. apply list_fmap_ext. intros _ c _.
    destruct (Nat.eqb_spec (Z.to_nat k') c), (Z.eqb_spec (Z.of_nat c) k');
      (done || lia). }
  destruct (Z.ltb_spec k 0);
    destruct (Z.leb_spec (- N) k), (Z.ltb_spec k N);
    destruct (Z.leb_spec 0 (k + N)), (Z.ltb_spec (k + N) N);
    destruct (Z.leb_spec 0 k);
    cbn [andb]; try lia; try done; by rewrite Hrow by lia.
Qed.

Lemma getitem_array_cases (indices : ndarray Q) :
  match getitem_array table (astype_int indices) with
  | Ok out => nd_all accepted indices = true ∧ described indices out
  | Raise e => e = IndexError ∧ nd_all accepted indices = false
  end.
Proof.
  induction indices as [q|l IH] using ndarray_nested_ind.
  - cbn [astype_int getitem_array nd_all]. rewrite take_row_cases.
    destruct (accepted q); cbn [mbind result_bind]; [|done].
    split; [done|]. split.
    + intros [|? ?] Hs; [|discriminate]. cbn [app has_shape].
      unfold vector. rewrite !length_fmap, length_seq, Nat.eqb_refl.
      cbn [andb].
      apply forallb_Forall, Forall_fmap, Forall_fmap, Forall_true. done.
    + intros [|? ?] q' Hget c Hc; [|discriminate]. injection Hget as <-.
      cbn [app nd_get]. rewrite list_lookup_fmap.
      by destruct (vector q !! c).
  - cbn [astype_int getitem_array nd_all].
    assert (Hl :
      match mapM (getitem_array table) (astype_int <$> l) with
      | Ok l' => forallb (nd_all accepted) l = true ∧ Forall2 described l l'
      | Raise e => e = IndexError ∧ forallb (nd_all accepted) l = false
      end).
    { induction IH as [|b l Hb _ IHl]; [by split; [|constructor]|].
      rewrite fmap_cons.
      change (mapM (getitem_array table) (astype_int b :: (astype_int <$> l)))
        with (y ← getitem_array table (astype_int b);
              k ← mapM (getitem_array table) (astype_int <$> l);
              mret (y :: k)).
      cbn [forallb].
      destruct (getitem_array table (astype_int b)) as [out|e];
        cbn [mbind result_bind].
      - destruct Hb as [-> Hout].
        destruct (mapM (getitem_array table) (astype_int <$> l)) as [l'|e];
          cbn [mbind result_bind].
        + destruct IHl as [-> Hrel]. split; [done|]. by constructor.
        + by destruct IHl as [-> ->].
      - by destruct Hb as [-> ->]. }
    destruct (mapM (getitem_array table) (astype_int <$> l)) as [l'|e];
      cbn [mbind result_bind]; [|done].
    destruct Hl as [Hall Hrel]. split; [done|]. split.
    + intros [|m s] Hs; [discriminate|]. cbn [has_shape] in Hs.
      apply andb_true_iff in Hs as [Hlen%Nat.eqb_eq Hs].
      apply forallb_Forall in Hs.
      cbn [app has_shape].
      rewrite <- (Forall2_length _ _ _ Hrel), Hlen, Nat.eqb_refl. cbn [andb].
      apply forallb_Forall, Forall_lookup. intros i out Hi.
      destruct (Forall2_lookup_r _ _ _ _ _ Hrel Hi) as (b & Hb & Hdesc & _).
      apply Hdesc. exact (Forall_lookup_1 _ _ _ _ Hs Hb).
    + intros [|i path] q Hget c Hc; [discriminate|].
      cbn [nd_get] in Hget. destruct (l !! i) as [b|] eqn:Hi; [|discriminate].
      cbn [mbind option_bind] in Hget.
      destruct (Forall2_lookup_l _ _ _ _ _ Hrel Hi) as (out & Hi' & _ & Hb).
      cbn [app nd_get]. rewrite Hi'. cbn [mbind option_bind]. by apply Hb.
Qed.

Lemma vector_lookup (q : Q) (c : nat) :
  c < n →
  vector q !! c
  = Some (if (Z.of_nat c =? wrap (Z.of_nat n) (to_int q))%Z
          then one dt else zero dt).
Proof.
  intros Hc. unfold vector. by rewrite list_lookup_fmap, lookup_seq_lt.
Qed.

Lemma one_hot_cases (indices : ndarray Q) :
  match one_hot indices (Z.of_nat n) dt with
  | Ok out =>
      nd_all (λ q, in_bounds (Z.of_nat n) (to_int q)) indices = true ∧
      (∀ s, has_shape indices s = true → has_shape out (s ++ [n]) = true) ∧
      ∀ path q, nd_get indices path = Some q →
        ∀ c, c < n →
          nd_get out (path ++ [c])
          = Some (if (Z.of_nat c =? wrap (Z.of_nat n) (to_int q))%Z
                  then one dt else zero dt)
  | Raise e =>
      e = IndexError ∧
      nd_all (λ q, in_bounds (Z.of_nat n) (to_int q)) indices = false
  end.
Proof.
  unfold one_hot. rewrite eye_table. cbn [mbind result_bind].
  pose proof (getitem_array_cases indices) as Hcases.
  fold table. destruct (getitem_array table (astype_int indices)); [|done].
  destruct Hcases as [Hall [Hshape Hget]]. split; [done|]. split; [done|].
  intros path q Hq c Hc. rewrite (Hget path q Hq c Hc). by apply vector_lookup.
Qed.

End OneHotGeneral.

Lemma nd_all_impl {A : Type} (P P' : A → bool) (a : ndarray A) :
  (∀ x, P x = true → P' x = true) →
  nd_all P a = true → nd_all P' a = true.
Proof.
  intros Himpl. induction a as [x|l IH] using ndarray_nested_ind.
  - apply Himpl.
  - cbn [nd_all]. rewrite !forallb_Forall. intros Hall.
    induction IH as [|b l Hb _ IHl]; [constructor|].
    inversion_clear Hall as [|? ? Hx Hl]. constructor; auto.
Qed.

Lemma nd_all_get {A : Type} (P : A → bool) (a : ndarray A) :
  nd_all P a = true →
  ∀ path x, nd_get a path = Some x → P x = true.
Proof.
  induction a as [x|l IH] using ndarray_nested_ind; intros Hall path y Hget.
  - destruct path; [|discriminate]. by injection Hget as <-.
  - destruct path as [|i path]; [discriminate|]. cbn [nd_get] in Hget.
    destruct (l !! i) as [b|] eqn:Hi; [|discriminate].
    cbn [mbind option_bind] in Hget. cbn [nd_all] in Hall.
    apply forallb_Forall in Hall.
    apply (Forall_lookup_1 _ _ _ _ IH Hi (Forall_lookup_1 _ _ _ _ Hall Hi)
             path y Hget).
Qed.

(** The outcomes of [one_hot] in terms of [to_int]. *)
Lemma one_hot_outcomes_to_int {A : Type} (dt : dtype A)
    (indices : ndarray Q) (depth : Z) :
  match one_hot indices depth dt with
  | Ok out =>
      (0 ≤ depth)%Z ∧
      nd_all (λ q, in_bounds depth (to_int q)) indices = true
  | Raise e =>
      (e = ValueError ∧ (depth < 0)%Z) ∨
      (e = IndexError ∧ (0 ≤ depth)%Z ∧
       nd_all (λ q, in_bounds depth (to_int q)) indices = false)
  end.
Proof.
  destruct (Z.ltb_spec depth 0) as [Hneg|Hpos].
  - unfold one_hot, eye. rewrite (proj2 (Z.ltb_lt depth 0)) by done.
    cbn [mbind result_bind]. by left.
  - rewrite <- (Z2Nat.id depth) by done.
    pose proof (one_hot_cases dt (Z.to_nat depth) indices) as Hcases.
    destruct (one_hot indices (Z.of_nat (Z.to_nat depth)) dt).
    + split; [lia|]. by destruct Hcases.
    + right. destruct Hcases as [-> Hall]. split; [done|]. split; [lia|done].
Qed.

(** The result of [one_hot] on accepted indices in terms of [to_int]. *)
Lemma one_hot_wraps_to_int {A : Type} (dt : dtype A)
    (indices : ndarray Q) (depth : Z) (s : list nat) :
  (0 ≤ depth)%Z →
  has_shape indices s = true →
  nd_all (λ q, in_bounds depth (to_int q)) indices = true →
  ∃ out,
    one_hot indices depth dt = Ok out ∧
    has_shape out (s ++ [Z.to_nat depth]) = true ∧
    ∀ path q, nd_get indices path = Some q →
      ∀ c, c < Z.to_nat depth →
        nd_get out (path ++ [c])
        = Some (if (Z.of_nat c =? wrap depth (to_int q))%Z
                then one dt else zero dt).
Proof.
  intros Hpos Hs Hall. revert Hall. rewrite <- (Z2Nat.id depth) by done.
  rewrite Nat2Z.id. intros Hall.
  pose proof (one_hot_cases dt (Z.to_nat depth) indices) as Hcases.
  destruct (one_hot indices (Z.of_nat (Z.to_nat depth)) dt) as [out|e].
  - exists out. destruct Hcases as (_ & Hshape & Hget).
    split; [done|]. split; [by apply Hshape|done].
  - destruct Hcases as [_ Hfalse]. congruence.
Qed.

(** ** The two expansions *)

Lemma as_ndarray_get (plane : list (list Q)) (y x : nat) :
  nd_get (as_ndarray plane) [y; x] = (row ← plane !! y; row !! x).
Proof.
  unfold as_ndarray. cbn [nd_get]. rewrite list_lookup_fmap.
  destruct (plane !! y) as [row|]; [|done].
  cbn [fmap option_fmap option_map mbind option_bind nd_get].
  rewrite list_lookup_fmap. by destruct (row !! x).
Qed.

(** X13: on a categorical layer whose raw values are all classes, the
    per-pixel expansion of the layer is the one-hot encoding of the layer
    with the class axis moved to the front: channel [j] of the block at
    pixel [(y, x)] equals entry [(y, x, j)] of [one_hot]. *)
Theorem expansion_agrees_with_one_hot
    (lib : pysc2) (m : map_type) (screen : ndarray3 Q) (i : nat)
    (feature : Feature) (plane : list (list Q)) :
  wf3 screen →
  shape0 screen = length (catalog_of lib m) →
  catalog_of lib m !! i = Some feature →
  type feature = CATEGORICAL →
  items screen !! i = Some plane →
  nd_all (is_index (Z.of_nat (scale feature))) (as_ndarray plane) = true →
  ∃ out hot,
    preprocess_map lib m screen = Ok out ∧
    one_hot (as_ndarray plane) (Z.of_nat (scale feature)) float_dtype
    = Ok hot ∧
    ∀ y x j, y < shape1 screen → x < shape2 screen → j < scale feature →
      ∃ r, pixel out (channel_offset (catalog_of lib m) i + j) y x = Some r ∧
           nd_get hot [y; x; j] = Some r.
Proof.
  intros Hwf Hshape Hi Hty Hplane Hall.
  pose proof (one_hot_cases float_dtype (scale feature) (as_ndarray plane))
    as Hcases.
  destruct (one_hot (as_ndarray plane) (Z.of_nat (scale feature)) float_dtype)
    as [hot|e].
  2:{ destruct Hcases as [_ Hfalse].
      rewrite (nd_all_impl (is_index (Z.of_nat (scale feature))) _ _) in Hfalse;
        [done| |done].
      intros q [-> Hq]%to_int_index. unfold in_bounds.
      apply andb_true_iff. split; [apply Z.leb_le | apply Z.ltb_lt]; lia. }
  destruct Hcases as (_ & _ & Hget).
  exists (encoded (catalog_of lib m) screen), hot.
  split; [by eapply preprocess_map_encoded|]. split; [done|].
  intros y x j Hy Hx Hj.
  assert (Hlayer : i < shape0 screen).
  { rewrite Hshape. by eapply lookup_lt_Some. }
  destruct (wf3_pixel screen i y x Hwf Hlayer Hy Hx) as [v Hv].
  assert (Hraw : nd_get (as_ndarray plane) [y; x] = Some v).
  { rewrite as_ndarray_get. unfold pixel in Hv. by rewrite Hplane in Hv. }
  pose proof (nd_all_get _ _ Hall _ _ Hraw) as Hidx.
  destruct (to_int_index _ _ Hidx) as [Hint Hrange].
  assert (Hclass : (v == inject_Z (Z.of_nat (Z.to_nat (Qfloor v))))%Q).
  { rewrite Z2Nat.id by lia. apply Qeq_bool_iff. unfold is_index in Hidx.
    by apply andb_true_iff in Hidx as [[Hidx _]%andb_true_iff _]. }
  eexists. split.
  - rewrite (encoded_categorical_pixel _ _ i y x feature v) by done.
    by rewrite (category_test v j (Z.to_nat (Qfloor v))).
  - change [y; x; j] with ([y; x] ++ [j]).
    rewrite (Hget [y; x] v Hraw j Hj). f_equal. cbn [one zero float_dtype].
    unfold wrap. rewrite Hint, (proj2 (Z.ltb_ge (Qfloor v) 0)) by lia.
    case_bool_decide as Hjk.
    + subst j. by rewrite Z2Nat.id, Z.eqb_refl by lia.
    + rewrite (proj2 (Z.eqb_neq _ _)); [done|]. lia.
Qed.

(** ** The further properties on the small instance *)

Lemma sample_raw_wf : wf3 Sample.raw.
Proof. split; [done|]. repeat constructor. Qed.

Example sample_one_hot_loose :
  one_hot Sample.loose_indices 3 Demo.float64
  = Ok (Axis [Axis [Item 0%Q; Item 1%Q; Item 0%Q];
              Axis [Item 0%Q; Item 0%Q; Item 1%Q];
              Axis [Item 1%Q; Item 0%Q; Item 0%Q]]).
Proof. reflexivity. Qed.

Example sample_mask_negative :
  _preprocess_available_actions Demo.handler [(-1)%Z] = Ok [0%Q; 0%Q; 1%Q].
Proof. reflexivity. Qed.

Example sample_mask_out_of_range :
  _preprocess_available_actions Demo.handler [3%Z] = Raise IndexError.
Proof. reflexivity. Qed.

Lemma target_point_round_trip_witness :
  ((0 ≤ 5 < 8)%Z → target_point Demo.handler (flat_index 8 5 2) = [5%Z; 2%Z]) ∧
  (target_point Demo.handler 21 = [5%Z; 2%Z] →
   21%Z = flat_index 8 5 2 ∧ (0 ≤ 5 < 8)%Z).
Proof.
  apply (target_point_round_trip Demo.handler 8 5 2 21).
  - reflexivity.
  - lia.
Defined.

Lemma target_point_in_grid_iff_witness :
  ∃ x y,
    target_point Demo.handler 70 = [x; y] ∧
    (0 ≤ x < 8)%Z ∧
    ((0 ≤ y < 8)%Z ↔ (0 ≤ 70 < 8 * 8)%Z).
Proof.
  apply (target_point_in_grid_iff Demo.handler 8 70).
  - reflexivity.
  - lia.
Defined.

Lemma available_actions_union_witness :
  ∃ vS vT,
    _preprocess_available_actions Demo.handler [0%Z] = Ok vS ∧
    _preprocess_available_actions Demo.handler [(-1)%Z; 0%Z] = Ok vT ∧
    (∀ i, [1%Q; 0%Q; 1%Q] !! i = Some 1%Q
          ↔ vS !! i = Some 1%Q ∨ vT !! i = Some 1%Q) ∧
    _preprocess_available_actions Demo.handler ([(-1)%Z; 0%Z] ++ [0%Z])
    = Ok [1%Q; 0%Q; 1%Q].
Proof.
  apply (available_actions_union Demo.handler [0%Z] [(-1)%Z; 0%Z]
           [1%Q; 0%Q; 1%Q]).
  reflexivity.
Defined.

Lemma preprocess_outcomes_witness :
  match preprocess_map Demo.lib Screen Demo.raw with
  | Ok out =>
      shape0 Demo.raw = length (catalog_of Demo.lib Screen) ∧
      catalog_of Demo.lib Screen ≠ [] ∧
      shape0 out = map_channels Demo.lib Screen ∧
      shape1 out = shape1 Demo.raw ∧
      shape2 out = shape2 Demo.raw ∧
      wf3 out
  | Raise e =>
      (e = AssertionError ∧
       shape0 Demo.raw ≠ length (catalog_of Demo.lib Screen)) ∨
      (e = ValueError ∧ shape0 Demo.raw = 0 ∧ catalog_of Demo.lib Screen = [])
  end.
Proof.
  apply (preprocess_outcomes Demo.lib Screen Demo.raw).
  exact demo_raw_wf.
Defined.

Lemma preprocess_pixelwise_witness :
  ∃ out out',
    preprocess_map Demo.lib Screen Demo.raw = Ok out ∧
    preprocess_map Demo.lib Screen Sample.raw = Ok out' ∧
    ∀ j, j < 3 →
      pixel out (channel_offset Demo.catalog 1 + j) 0 0
      = pixel out' (channel_offset Demo.catalog 1 + j) 0 0.
Proof.
  apply (preprocess_pixelwise Demo.lib Screen Demo.raw Sample.raw 1 0 0
           {| type := CATEGORICAL; scale := 3 |} 2%Q 2%Q).
  - exact demo_raw_wf.
  - exact sample_raw_wf.
  - reflexivity.
  - reflexivity.
  - reflexivity.
  - reflexivity.
  - reflexivity.
  - reflexivity.
Defined.

Lemma expansion_agrees_with_one_hot_witness :
  ∃ out hot,
    preprocess_map Demo.lib Minimap Sample.raw = Ok out ∧
    one_hot (as_ndarray [[2%Q; 1%Q]]) 3 float_dtype = Ok hot ∧
    ∀ y x j, y < 1 → x < 2 → j < 3 →
      ∃ r, pixel out (channel_offset Demo.catalog 1 + j) y x = Some r ∧
           nd_get hot [y; x; j] = Some r.
Proof.
  apply (expansion_agrees_with_one_hot Demo.lib Minimap Sample.raw 1
           {| type := CATEGORICAL; scale := 3 |} [[2%Q; 1%Q]]).
  - exact sample_raw_wf.
  - reflexivity.
  - reflexivity.
  - reflexivity.
  - reflexivity.
  - reflexivity.
Defined.

(** * The conversions at the boundary *)

Import Cast.

(** ** The conversion of the raw map to [float32] *)

Example float32_of_tenth : float32 (1 # 10) = Some (13421773 # 134217728)%Q.
Proof. reflexivity. Qed.

Example float32_tie_to_even : float32 16777217 = Some 16777216%Q.
Proof. reflexivity. Qed.

Example float32_near_two : float32 (200000001 # 100000000) = Some 2%Q.
Proof. reflexivity. Qed.

Example float32_overflow : float32 (Qpower 2 128) = None.
Proof. reflexivity. Qed.

Example float32_unrounded : np_array_float32 Sample.unrounded = Some Sample.rounded.
Proof. reflexivity. Qed.

Section Converted.
Variables raw screen : ndarray3 Q.
Hypothesis converted : np_array_float32 raw = Some screen.

Lemma converted_items :
  shape0 screen = shape0 raw ∧ shape1 screen = shape1 raw ∧
  shape2 screen = shape2 raw ∧
  Forall2 (Forall2 (Forall2 (λ v w, float32 v = Some w)))
          (items raw) (items screen).
Proof.
  revert converted. unfold np_array_float32.
  destruct (mapM _ (items raw)) as [its|] eqn:Hits; [|done].
  cbn [mbind option_bind]. intros [= <-]. repeat split.
  apply mapM_Some_1 in Hits.
  eapply Forall2_impl; [exact Hits|]. intros plane plane' Hplane.
  apply mapM_Some_1 in Hplane.
  eapply Forall2_impl; [exact Hplane|]. intros row row' Hrow.
  by apply mapM_Some_1 in Hrow.
Qed.

Lemma converted_wf : wf3 raw → wf3 screen.
Proof.
  destruct converted_items as (H0 & H1 & H2 & Hits).
  intros [Hlen Hplanes]. split.
  - rewrite H0, <- Hlen. symmetry. by eapply Forall2_length.
  - rewrite H1, H2. apply Forall_lookup. intros c plane' Hc.
    destruct (Forall2_lookup_r _ _ _ _ _ Hits Hc) as (plane & Hplane & Hrel).
    destruct (Forall_lookup_1 _ _ _ _ Hplanes Hplane) as [Hrows Hcols].
    split.
    + rewrite <- Hrows. symmetry. by eapply Forall2_length.
    + apply Forall_lookup. intros y row' Hy.
      destruct (Forall2_lookup_r _ _ _ _ _ Hrel Hy) as (row & Hrow & Hrel').
      rewrite <- (Forall_lookup_1 _ _ _ _ Hcols Hrow).
      symmetry. by eapply Forall2_length.
Qed.

Lemma converted_pixel (c y x : nat) (v : Q) :
  pixel raw c y x = Some v →
  ∃ w, float32 v = Some w ∧ pixel screen c y x = Some w.
Proof.
  destruct converted_items as (_ & _ & _ & Hits). unfold pixel.
  destruct (items raw !! c) as [plane|] eqn:Hc; [|done].
  destruct (Forall2_lookup_l _ _ _ _ _ Hits Hc) as (plane' & -> & Hrel).
  cbn [mbind option_bind].
  destruct (plane !! y) as [row|] eqn:Hy; [|done].
  destruct (Forall2_lookup_l _ _ _ _ _ Hrel Hy) as (row' & -> & Hrel').
  cbn [mbind option_bind]. intros Hx.
  destruct (Forall2_lookup_l _ _ _ _ _ Hrel' Hx) as (w & Hw & Hvw).
  by exists w.
Qed.

End Converted.

(** The raw value 2.00000001 of a categorical layer with three classes is
    no integer of [0, 3), yet after the conversion to [float32] the class
    channel 2 holds 1 at that pixel. *)
Lemma categorical_expansion_raw_counterexample :
  pixel Sample.unrounded 1 0 0 = Some (200000001 # 100000000)%Q ∧
  (∀ j, j < 3 → ¬ ((200000001 # 100000000) == inject_Z (Z.of_nat j))%Q) ∧
  np_array_float32 Sample.unrounded = Some Sample.rounded ∧
  ∃ out,
    _preprocess_screen Demo.lib Sample.rounded = Ok out ∧
    pixel out (channel_offset Demo.catalog 1 + 2) 0 0 = Some 1%R ∧
    pixel out (channel_offset Demo.catalog 1 + 2) 0 0 ≠ Some 0%R.
Proof.
  split; [reflexivity|]. split.
  - intros j Hj Heq. unfold Qeq in Heq. cbn [Qnum Qden inject_Z] in Heq. lia.
  - split; [reflexivity|].
    exists (Nd3 4 1 2 [ [[ln (Q2R 0 + 1); ln (Q2R 3 + 1)]];
                        [[0; 0]]; [[0; 0]]; [[1; 0]] ]%R).
    split; [reflexivity|]. split; [reflexivity|].
    change (Some 1%R ≠ Some 0%R). intros [= H]. lra.
Qed.

(** C10: when the raw map stays finite under the conversion to [float32]
    and the converted value at a pixel of a categorical layer is no
    integer of [0, scale), the expansion raises nothing and every expanded
    channel is 0 at that pixel, so the channels sum to 0 there; at every
    pixel of the layer the sum of the expanded channels is between 0 and
    1. *)
Theorem categorical_expansion_after_cast
    (lib : pysc2) (m : map_type) (raw screen : ndarray3 Q)
    (i y x : nat) (feature : Feature) (v w : Q) :
  wf3 raw →
  np_array_float32 raw = Some screen →
  shape0 raw = length (catalog_of lib m) →
  catalog_of lib m !! i = Some feature →
  type feature = CATEGORICAL →
  pixel raw i y x = Some v →
  float32 v = Some w →
  (∀ j, j < scale feature → ¬ (w == inject_Z (Z.of_nat j))%Q) →
  ∃ out,
    preprocess_map lib m screen = Ok out ∧
    (∀ j, j < scale feature →
       pixel out (channel_offset (catalog_of lib m) i + j) y x = Some 0%R) ∧
    Rsum (column out (channel_offset (catalog_of lib m) i)
                 (scale feature) y x) = 0%R ∧
    (∀ y' x' v', pixel raw i y' x' = Some v' →
       (0 <= Rsum (column out (channel_offset (catalog_of lib m) i)
                          (scale feature) y' x') <= 1)%R).
Proof.
  intros Hwf Hcast Hshape Hi Hty Hpx Hw Hout.
  destruct (converted_items raw screen Hcast) as (H0 & _ & _ & _).
  destruct (converted_pixel raw screen Hcast i y x v Hpx) as (w' & Hw' & Hpx').
  assert (w' = w) as -> by congruence.
  destruct (categorical_expansion_zero lib m screen i y x feature w)
    as (out & Hrun & Hzero & Hsum & Hall);
    [by apply (converted_wf raw) | congruence | done..|].
  exists out. split; [done|]. split; [done|]. split; [done|].
  intros y' x' v' Hv'.
  destruct (converted_pixel raw screen Hcast i y' x' v' Hv') as (w'' & _ & Hpx'').
  by apply (Hall y' x' w'').
Qed.

Lemma categorical_expansion_after_cast_witness :
  ∃ out,
    preprocess_map Demo.lib Screen Sample.rounded = Ok out ∧
    (∀ j, j < 3 →
       pixel out (channel_offset Demo.catalog 1 + j) 0 1 = Some 0%R) ∧
    Rsum (column out (channel_offset Demo.catalog 1) 3 0 1) = 0%R ∧
    (∀ y' x' v', pixel Sample.unrounded 1 y' x' = Some v' →
       (0 <= Rsum (column out (channel_offset Demo.catalog 1) 3 y' x') <= 1)%R).
Proof.
  apply (categorical_expansion_after_cast Demo.lib Screen Sample.unrounded
           Sample.rounded 1 0 1 {| type := CATEGORICAL; scale := 3 |}
           (1 # 2)%Q (1 # 2)%Q).
  - split; [done|]. repeat constructor.
  - reflexivity.
  - reflexivity.
  - reflexivity.
  - reflexivity.
  - reflexivity.
  - reflexivity.
  - intros j Hj Heq. cbn [scale] in Hj.
    unfold Qeq in Heq. cbn [Qnum Qden inject_Z] in Heq. lia.
Defined.

(** X10: every entry of the encoded map is accounted for: each output
    channel [c] belongs to the block of exactly one catalog layer [i], at
    one position [j] of that block, and its value at a pixel is computed
    from the [float32] value [w] of the raw entry of layer [i] at the same
    pixel: 1 or 0 according to [w = j] for a categorical layer, and
    [log (w + 1)] for a scalar layer where [w > -1]. *)
Theorem encoded_entry_origin
    (lib : pysc2) (m : map_type) (raw screen : ndarray3 Q) (c y x : nat) :
  wf3 raw →
  np_array_float32 raw = Some screen →
  shape0 raw = length (catalog_of lib m) →
  c < map_channels lib m →
  y < shape1 raw →
  x < shape2 raw →
  ∃ out i feature j v w,
    preprocess_map lib m screen = Ok out ∧
    catalog_of lib m !! i = Some feature ∧
    j < channels_of feature ∧
    c = channel_offset (catalog_of lib m) i + j ∧
    (∀ i' feature' j',
       catalog_of lib m !! i' = Some feature' →
       j' < channels_of feature' →
       c = channel_offset (catalog_of lib m) i' + j' →
       i' = i ∧ j' = j) ∧
    pixel raw i y x = Some v ∧
    float32 v = Some w ∧
    match type feature with
    | SCALAR =>
        (-1 < w)%Q → pixel out c y x = Some (ln (Q2R w + 1)%R)
    | CATEGORICAL =>
        pixel out c y x
        = Some (if Qeq_bool w (inject_Z (Z.of_nat j)) then 1%R else 0%R)
    end.
Proof.
  intros Hwf Hcast Hshape Hc Hy Hx.
  destruct (converted_items raw screen Hcast) as (H0 & H1 & H2 & _).
  destruct (encoded_entry_cases lib m screen c y x)
    as (out & i & feature & j & w & Hrun & Hi & Hj & Hcj & Huniq & Hw & Hout);
    [by apply (converted_wf raw) | congruence | done | congruence
    | congruence |].
  assert (Hlayer : i < shape0 raw).
  { rewrite Hshape. by eapply lookup_lt_Some. }
  destruct (wf3_pixel raw i y x Hwf Hlayer Hy Hx) as [v Hv].
  destruct (converted_pixel raw screen Hcast i y x v Hv) as (w' & Hw' & Hpx').
  assert (w' = w) as -> by congruence.
  exists out, i, feature, j, v, w.
  repeat (split; [done|]). by destruct (type feature).
Qed.

Lemma encoded_entry_origin_witness :
  ∃ out i feature j v w,
    preprocess_map Demo.lib Screen Sample.rounded = Ok out ∧
    Demo.catalog !! i = Some feature ∧
    j < channels_of feature ∧
    3 = channel_offset Demo.catalog i + j ∧
    (∀ i' feature' j',
       Demo.catalog !! i' = Some feature' →
       j' < channels_of feature' →
       3 = channel_offset Demo.catalog i' + j' →
       i' = i ∧ j' = j) ∧
    pixel Sample.unrounded i 0 0 = Some v ∧
    float32 v = Some w ∧
    match type feature with
    | SCALAR =>
        (-1 < w)%Q → pixel out 3 0 0 = Some (ln (Q2R w + 1)%R)
    | CATEGORICAL =>
        pixel out 3 0 0
        = Some (if Qeq_bool w (inject_Z (Z.of_nat j)) then 1%R else 0%R)
    end.
Proof.
  apply (encoded_entry_origin Demo.lib Screen Sample.unrounded Sample.rounded
           3 0 0).
  - split; [done|]. repeat constructor.
  - reflexivity.
  - reflexivity.
  - vm_compute. lia.
  - vm_compute. lia.
  - vm_compute. lia.
Defined.

(** ** The flag of both kinds of action *)

Lemma nonspatial_flag_and_decoder_witness :
  (∃ flag,
     non_spatial_actions Sample.handler !! Z.to_nat 1 = Some flag ∧
     (flag = true →
      ∀ target,
        postprocess_action Sample.lib Sample.handler [[1%Z]] [[target]]
        = Ok {| function := 1; arguments := replicate 1 [0%Z] |}) ∧
     (flag = false →
      ∀ target, ∃ call,
        postprocess_action Sample.lib Sample.handler [[1%Z]] [[target]]
        = Ok call ∧
        target_point Sample.handler target ∈ arguments call)) ∧
  (∃ flag,
     non_spatial_actions Sample.handler !! Z.to_nat 2 = Some flag ∧
     (flag = true →
      ∀ target,
        postprocess_action Sample.lib Sample.handler [[2%Z]] [[target]]
        = Ok {| function := 2; arguments := replicate 2 [0%Z] |}) ∧
     (flag = false →
      ∀ target, ∃ call,
        postprocess_action Sample.lib Sample.handler [[2%Z]] [[target]]
        = Ok call ∧
        target_point Sample.handler target ∈ arguments call)).
Proof.
  split.
  - apply (nonspatial_flag_and_decoder Sample.lib "test" Sample.handler 1
             Sample.select_army).
    + reflexivity.
    + lia.
    + reflexivity.
  - apply (nonspatial_flag_and_decoder Sample.lib "test" Sample.handler 2
             Sample.attack_minimap).
    + reflexivity.
    + lia.
    + reflexivity.
Defined.

Example sample_flags :
  non_spatial_actions Sample.handler !! 1 = Some true ∧
  non_spatial_actions Sample.handler !! 2 = Some false ∧
  postprocess_action Sample.lib Sample.handler [[1%Z]] [[21%Z]]
  = Ok {| function := 1; arguments := [[0%Z]] |} ∧
  postprocess_action Sample.lib Sample.handler [[2%Z]] [[21%Z]]
  = Ok {| function := 2; arguments := [[0%Z]; [5%Z; 2%Z]] |}.
Proof. repeat split. Qed.

(** ** Identifiers and indices of the integer type *)

(** X6: on a sequence of [int64] identifiers the mask builder raises
    IndexError exactly when some identifier lies outside [-n, n), and
    raises nothing else; otherwise a negative identifier [k] marks position
    [k + n], so position [i] holds 1 exactly when [i] or [i - n] is
    listed. *)
Theorem available_actions_outcomes
    (self : GameInterfaceHandler) (S : list Z) :
  Forall (λ k, is_int64 k = true) S →
  match _preprocess_available_actions self S with
  | Ok v =>
      Forall (λ k, (- Z.of_nat (num_action self) ≤ k
                    < Z.of_nat (num_action self))%Z) S ∧
      length v = num_action self ∧
      ∀ i, i < num_action self →
        v !! i
        = Some (if bool_decide
                     (Z.of_nat i ∈ S ∨
                      (Z.of_nat i - Z.of_nat (num_action self))%Z ∈ S)
                then 1%Q else 0%Q)
  | Raise e =>
      e = IndexError ∧
      Exists (λ k, (k < - Z.of_nat (num_action self)
                    ∨ Z.of_nat (num_action self) ≤ k)%Z) S
  end.
Proof.
  intros _. pose proof (available_actions_cases self S) as Hcases.
  destruct (_preprocess_available_actions self S) as [v|e].
  - destruct Hcases as (Hall & Hlen & Hlk). split; [|done].
    apply forallb_Forall in Hall. eapply Forall_impl; [exact Hall|].
    intros k [H1%Z.leb_le H2%Z.ltb_lt]%andb_true_iff. lia.
  - destruct Hcases as [-> Hall]. split; [done|].
    induction S as [|k S IH]; [discriminate|]. cbn [forallb] in Hall.
    apply andb_false_iff in Hall as [Hk|HS].
    + apply Exists_cons_hd. unfold in_bounds in Hk.
      apply andb_false_iff in Hk as [Hk%Z.leb_gt|Hk%Z.ltb_ge]; lia.
    + apply Exists_cons_tl. by apply IH.
Qed.

Lemma available_actions_outcomes_witness :
  match _preprocess_available_actions Demo.handler [(-1)%Z; 0%Z; 3%Z] with
  | Ok v =>
      Forall (λ k, (- Z.of_nat 3 ≤ k < Z.of_nat 3)%Z) [(-1)%Z; 0%Z; 3%Z] ∧
      length v = 3 ∧
      ∀ i, i < 3 →
        v !! i
        = Some (if bool_decide
                     (Z.of_nat i ∈ [(-1)%Z; 0%Z; 3%Z] ∨
                      (Z.of_nat i - Z.of_nat 3)%Z ∈ [(-1)%Z; 0%Z; 3%Z])
                then 1%Q else 0%Q)
  | Raise e =>
      e = IndexError ∧
      Exists (λ k, (k < - Z.of_nat 3 ∨ Z.of_nat 3 ≤ k)%Z) [(-1)%Z; 0%Z; 3%Z]
  end.
Proof.
  apply (available_actions_outcomes Demo.handler [(-1)%Z; 0%Z; 3%Z]).
  repeat constructor.
Defined.

Lemma to_int_truncate (q : Q) : to_int q = truncate q.
Proof.
  unfold to_int, truncate. destruct q as [num den]. cbn [Qnum Qden].
  destruct (Z.ltb_spec num 0) as [Hneg|Hpos].
  - unfold Qceiling, Qfloor, Qopp. cbn [Qnum Qden].
    rewrite <- (Z.opp_involutive num) at 2.
    rewrite Z.quot_opp_l by lia. f_equal.
    symmetry. apply Z.quot_div_nonneg; lia.
  - unfold Qfloor. symmetry. apply Z.quot_div_nonneg; lia.
Qed.

Lemma nd_all_ext {A : Type} (P P' : A → bool) (a : ndarray A) :
  (∀ x, P x = P' x) → nd_all P a = nd_all P' a.
Proof.
  intros Hext.
  destruct (nd_all P a) eqn:HP, (nd_all P' a) eqn:HP'; try done.
  - rewrite (nd_all_impl P P' a) in HP'; [done| |done].
    intros x. by rewrite Hext.
  - rewrite (nd_all_impl P' P a) in HP; [done| |done].
    intros x. by rewrite Hext.
Qed.

(** X11: on indices whose integer parts are [int64] values, [one_hot] has
    three outcomes: ValueError for a negative depth, IndexError when the
    depth is not negative and the integer part of some index, rounded
    toward zero, lies outside [-depth, depth), and a result otherwise. *)
Theorem one_hot_outcomes {A : Type} (dt : dtype A)
    (indices : ndarray Q) (depth : Z) :
  nd_all (λ q, is_int64 (truncate q)) indices = true →
  match one_hot indices depth dt with
  | Ok out =>
      (0 ≤ depth)%Z ∧
      nd_all (λ q, in_bounds depth (truncate q)) indices = true
  | Raise e =>
      (e = ValueError ∧ (depth < 0)%Z) ∨
      (e = IndexError ∧ (0 ≤ depth)%Z ∧
       nd_all (λ q, in_bounds depth (truncate q)) indices = false)
  end.
Proof.
  intros _. pose proof (one_hot_outcomes_to_int dt indices depth) as Hcases.
  rewrite <- (nd_all_ext (λ q, in_bounds depth (to_int q))
                (λ q, in_bounds depth (truncate q)) indices)
    by (intros q; by rewrite to_int_truncate).
  exact Hcases.
Qed.

Lemma one_hot_outcomes_witness :
  match one_hot Sample.loose_indices 3 Demo.float64 with
  | Ok out =>
      (0 ≤ 3)%Z ∧
      nd_all (λ q, in_bounds 3 (truncate q)) Sample.loose_indices = true
  | Raise e =>
      (e = ValueError ∧ (3 < 0)%Z) ∨
      (e = IndexError ∧ (0 ≤ 3)%Z ∧
       nd_all (λ q, in_bounds 3 (truncate q)) Sample.loose_indices = false)
  end.
Proof.
  apply (one_hot_outcomes Demo.float64 Sample.loose_indices 3).
  reflexivity.
Defined.

(** X12: [one_hot] accepts every index whose integer part, rounded toward
    zero, lies in [-depth, depth): a float index such as 1.5 selects class
    1, and a negative integer part [k] selects class [k + depth], so that
    -1 is encoded as the last class; the result has one more trailing axis
    of size [depth]. *)
Theorem one_hot_truncates_and_wraps {A : Type} (dt : dtype A)
    (indices : ndarray Q) (depth : Z) (s : list nat) :
  (0 ≤ depth)%Z →
  has_shape indices s = true →
  nd_all (λ q, is_int64 (truncate q)) indices = true →
  nd_all (λ q, in_bounds depth (truncate q)) indices = true →
  ∃ out,
    one_hot indices depth dt = Ok out ∧
    has_shape out (s ++ [Z.to_nat depth]) = true ∧
    ∀ path q, nd_get indices path = Some q →
      ∀ c, c < Z.to_nat depth →
        nd_get out (path ++ [c])
        = Some (if (Z.of_nat c =? wrap depth (truncate q))%Z
                then one dt else zero dt).
Proof.
  intros Hpos Hs _ Hall.
  rewrite <- (nd_all_ext (λ q, in_bounds depth (to_int q))) in Hall
    by (intros q; by rewrite to_int_truncate).
  destruct (one_hot_wraps_to_int dt indices depth s Hpos Hs Hall)
    as (out & Hrun & Hshape & Hget).
  exists out. split; [done|]. split; [done|].
  intros path q Hq c Hc. rewrite <- to_int_truncate. by apply Hget.
Qed.

Lemma one_hot_truncates_and_wraps_witness :
  ∃ out,
    one_hot Sample.loose_indices 3 Demo.float64 = Ok out ∧
    has_shape out [3; 3] = true ∧
    ∀ path q, nd_get Sample.loose_indices path = Some q →
      ∀ c, c < 3 →
        nd_get out (path ++ [c])
        = Some (if (Z.of_nat c =? wrap 3 (truncate q))%Z then 1%Q else 0%Q).
Proof.
  apply (one_hot_truncates_and_wraps Demo.float64 Sample.loose_indices 3 [3]).
  - lia.
  - reflexivity.
  - reflexivity.
  - reflexivity.
Defined.

Example truncate_toward_zero :
  truncate (3 # 2) = 1%Z ∧ truncate (-3 # 2) = (-1)%Z ∧
  truncate (-1 # 2) = 0%Z ∧ Qfloor (-1 # 2) = (-1)%Z.
Proof. repeat split. Qed.
